(** * HDA property packages: state-block initialization and property expressions

    A shallow embedding of the two tutorial notebooks
    [Intro_to_Prop_Packages_Tutorial.ipynb] (thermophysical package) and
    [Reaction_Prop_Packages_Tutorial.ipynb] (reaction package).

    Python objects that the notebooks mutate in place (the indexed state
    block, its variables and constraints, the loggers, the solver) live in
    an explicit [World]; every notebook function is a computation in a
    state-and-exception monad over that world.  Numeric values are exact
    rationals; the exponential of the Arrhenius equation is taken over
    the reals. *)

From Stdlib Require Import QArith Qfield Lia Ascii String.
From stdpp Require Import base option gmap strings list fin_maps.
From Stdlib Require Import Reals Lra.

Set Default Proof Using "Type".

(** ** Components and indexed quantities *)

(** [define_components_and_phases]: the five species, in declaration order. *)
Inductive component : Type :=
| benzene | toluene | methane | hydrogen | diphenyl.

Definition component_list : list component :=
  [benzene; toluene; methane; hydrogen; diphenyl].

#[global] Instance component_eq_dec : EqDecision component.
Proof. solve_decision. Defined.

(** A quantity indexed by [component_list], such as [mole_frac_comp]. *)
Record by_component (A : Type) : Type := ByComponent {
  at_benzene : A;
  at_toluene : A;
  at_methane : A;
  at_hydrogen : A;
  at_diphenyl : A
}.
Arguments ByComponent {A} _ _ _ _ _.
Arguments at_benzene {A} _.
Arguments at_toluene {A} _.
Arguments at_methane {A} _.
Arguments at_hydrogen {A} _.
Arguments at_diphenyl {A} _.

Definition getc {A} (m : by_component A) (j : component) : A :=
  match j with
  | benzene => at_benzene m
  | toluene => at_toluene m
  | methane => at_methane m
  | hydrogen => at_hydrogen m
  | diphenyl => at_diphenyl m
  end.

Definition mapc {A B} (f : A -> B) (m : by_component A) : by_component B :=
  ByComponent (f (at_benzene m)) (f (at_toluene m)) (f (at_methane m))
              (f (at_hydrogen m)) (f (at_diphenyl m)).

Definition map2c {A B C} (f : A -> B -> C)
    (m : by_component A) (n : by_component B) : by_component C :=
  ByComponent (f (at_benzene m) (at_benzene n)) (f (at_toluene m) (at_toluene n))
              (f (at_methane m) (at_methane n)) (f (at_hydrogen m) (at_hydrogen n))
              (f (at_diphenyl m) (at_diphenyl n)).

Definition constc {A} (a : A) : by_component A := ByComponent a a a a a.

(** ** Pyomo variables and constraints *)

Record VarData : Type := mkVar { value : Q; fixed : bool }.

(** [v.fix(x)], [v.fix()] and [v.unfix()]. *)
Definition fix_to (x : Q) (v : VarData) : VarData := mkVar x true.
Definition fix_var (v : VarData) : VarData := mkVar (value v) true.
Definition unfix (v : VarData) : VarData := mkVar (value v) false.

Record ConstraintData : Type := mkConstraint { active : bool }.

Definition deactivate (c : ConstraintData) : ConstraintData := mkConstraint false.
Definition activate (c : ConstraintData) : ConstraintData := mkConstraint true.

(** ** One sub-block of the indexed state block

    The variables are those declared by [add_state_variables] and
    [add_molecular_weight_and_density]; the constraints are [ideal_gas_eq]
    and, when [add_mole_fraction_constraint] created it, the attribute
    [mole_fraction_constraint] ([None] when the attribute is absent). *)
Record StateBlockData : Type := mkStateBlockData {
  defined_state : bool;
  flow_mol : VarData;
  mole_frac_comp : by_component VarData;
  pressure : VarData;
  temperature : VarData;
  dens_mol : VarData;
  ideal_gas_eq : ConstraintData;
  mole_fraction_constraint : option ConstraintData
}.

Definition set_mole_fraction_constraint (c : option ConstraintData)
    (b : StateBlockData) : StateBlockData :=
  mkStateBlockData (defined_state b) (flow_mol b) (mole_frac_comp b) (pressure b)
    (temperature b) (dens_mol b) (ideal_gas_eq b) c.

(** [return_state_var_dict]: the names under which the state variables are
    handed to the framework; [mole_frac_comp] contributes one entry per
    component. *)
Inductive state_var_key : Type :=
| key_flow_mol
| key_mole_frac_comp (j : component)
| key_temperature
| key_pressure.

Definition return_state_var_dict (b : StateBlockData) (n : state_var_key) : VarData :=
  match n with
  | key_flow_mol => flow_mol b
  | key_mole_frac_comp j => getc (mole_frac_comp b) j
  | key_temperature => temperature b
  | key_pressure => pressure b
  end.

(** ** Exceptions, the world and the monad *)

Inductive exn : Type :=
| NameError (name : string)
| AttributeError (owner attr : string)
| KeyError (k : nat)
| Exception (msg : string)
| ConfigurationError (msg : string)
| SolverError (msg : string).

Inductive res (A : Type) : Type :=
| Val (a : A)
| Exc (e : exn).
Arguments Val {A} a.
Arguments Exc {A} e.

(** idaeslog levels used by the notebooks. *)
Inductive level : Type := NOTSET | DEBUG | INFO | INFO_HIGH.

Record LogRecord : Type := mkLog {
  logger_outlvl : level;
  record_level : level;
  message : string
}.

(** [blk] is the indexed state block (a dict from index to sub-block),
    [log] what the init loggers were handed, [solver_calls] how many times
    [solve_indexed_blocks] was entered. *)
Record World : Type := mkWorld {
  blk : gmap nat StateBlockData;
  log : list LogRecord;
  solver_calls : nat
}.

Definition set_blk (m : gmap nat StateBlockData) (w : World) : World :=
  mkWorld m (log w) (solver_calls w).

Definition M (A : Type) : Type := World -> World * res A.

#[global] Instance M_ret : MRet M := fun A a w => (w, Val a).

#[global] Instance M_bind : MBind M := fun A B k m w =>
  match m w with
  | (w', Val a) => k a w'
  | (w', Exc e) => (w', Exc e)
  end.

#[global] Instance M_fmap : FMap M := fun A B f m w =>
  match m w with
  | (w', Val a) => (w', Val (f a))
  | (w', Exc e) => (w', Exc e)
  end.

Definition raise {A} (e : exn) : M A := fun w => (w, Exc e).

(** [try: m except: h] with a bare [except], which catches everything. *)
Definition try_except {A} (m : M A) (h : exn -> M A) : M A := fun w =>
  match m w with
  | (w', Val a) => (w', Val a)
  | (w', Exc e) => h e w'
  end.

(** [blk.keys()], [blk[k]] and the write-back of a mutated [blk[k]]. *)
Definition keys : M (list nat) := fun w => (w, Val (map_to_list (blk w)).*1).

Definition getitem (k : nat) : M StateBlockData := fun w =>
  match blk w !! k with
  | Some b => (w, Val b)
  | None => (w, Exc (KeyError k))
  end.

Definition setitem (k : nat) (b : StateBlockData) : M unit := fun w =>
  (set_blk (<[k := b]> (blk w)) w, Val tt).

(** [for k in ks: body(k)]. *)
Fixpoint for_each (ks : list nat) (body : nat -> M unit) : M unit :=
  match ks with
  | [] => mret tt
  | k :: ks' => body k ;; for_each ks' body
  end.

(** [acc = a0; for k in ks: acc = step(acc, k)]. *)
Fixpoint for_fold {A} (ks : list nat) (a0 : A) (step : A -> nat -> M A) : M A :=
  match ks with
  | [] => mret a0
  | k :: ks' => a ← step a0 k; for_fold ks' a step
  end.

Definition emit (outlvl lvl : level) (msg : string) : M unit := fun w =>
  (mkWorld (blk w) (log w ++ [mkLog outlvl lvl msg]) (solver_calls w), Val tt).

(** ** Framework collaborators

    The notebooks import these from the modelling framework
    ([idaes.core.util.initialization], [idaes.core.util.model_statistics],
    [idaes.logger]); their code is not part of the repository, so each is
    given here by what the specification says of it. *)

(** [state_args]: a value per state-variable name; [None] where the caller
    passed nothing for that name. *)
Record StateArgs : Type := mkStateArgs {
  arg_flow_mol : option Q;
  arg_mole_frac_comp : option (by_component Q);
  arg_temperature : option Q;
  arg_pressure : option Q
}.

Definition no_state_args : StateArgs := mkStateArgs None None None None.

(** Modelled from the spec: FixFlags, "an opaque record capturing which
    state variables were already fixed before an initialization call"; one
    boolean per state variable of each sub-block. *)
Record SubFlags : Type := mkSubFlags {
  was_fixed_flow_mol : bool;
  was_fixed_mole_frac_comp : by_component bool;
  was_fixed_temperature : bool;
  was_fixed_pressure : bool
}.

Abbreviation FixFlags := (gmap nat SubFlags).

Definition fix_one (passed : option Q) (v : VarData) : VarData :=
  if fixed v then v
  else match passed with
       | Some x => fix_to x v
       | None => fix_var v
       end.

Definition fix_sub_block (args : StateArgs) (b : StateBlockData) : StateBlockData :=
  mkStateBlockData (defined_state b)
    (fix_one (arg_flow_mol args) (flow_mol b))
    (match arg_mole_frac_comp args with
     | Some xs => map2c (fun x v => fix_one (Some x) v) xs (mole_frac_comp b)
     | None => mapc (fix_one None) (mole_frac_comp b)
     end)
    (fix_one (arg_pressure args) (pressure b))
    (fix_one (arg_temperature args) (temperature b))
    (dens_mol b) (ideal_gas_eq b) (mole_fraction_constraint b).

Definition flags_of (b : StateBlockData) : SubFlags :=
  mkSubFlags (fixed (flow_mol b)) (mapc fixed (mole_frac_comp b))
             (fixed (temperature b)) (fixed (pressure b)).

(** Modelled from the spec: [fix_state_vars], which "fixes each named state
    variable to a value drawn from [state_args] (falling back to its
    declared initial value), recording prior fixed/free status in
    FixFlags".  A variable that is already fixed is left as it is; one
    for which nothing is passed is fixed at the value it holds. *)
Definition fix_state_vars (state_args : StateArgs) : M FixFlags := fun w =>
  (set_blk (fix_sub_block state_args <$> blk w) w, Val (flags_of <$> blk w)).

Definition revert_one (was_fixed : bool) (v : VarData) : VarData :=
  if was_fixed then v else unfix v.

Definition revert_sub_block (f : SubFlags) (b : StateBlockData) : StateBlockData :=
  mkStateBlockData (defined_state b)
    (revert_one (was_fixed_flow_mol f) (flow_mol b))
    (map2c revert_one (was_fixed_mole_frac_comp f) (mole_frac_comp b))
    (revert_one (was_fixed_pressure f) (pressure b))
    (revert_one (was_fixed_temperature f) (temperature b))
    (dens_mol b) (ideal_gas_eq b) (mole_fraction_constraint b).

Definition flags_mismatch : string :=
  "Indices of flags provided do not match with indices of the state variables.".

(** Modelled from the spec: [revert_state_vars], which uses the flags "to
    restore exactly the prior fixed/free status": a variable recorded as
    free is unfixed, one recorded as fixed is left alone.  The flags hold
    no values, so a variable keeps the value it has.  Flags that miss a
    sub-block are a configuration error. *)
Definition revert_state_vars (flags : FixFlags) : M unit := fun w =>
  let m := map_imap (fun k b => Some (match flags !! k with
                                      | Some f => revert_sub_block f b
                                      | None => b
                                      end)) (blk w) in
  if decide (map_Forall (fun k _ => is_Some (flags !! k)) (blk w))
  then (set_blk m w, Val tt)
  else (set_blk m w, Exc (ConfigurationError flags_mismatch)).

Definition count_unfixed (vs : list VarData) : nat :=
  length (List.filter (fun v => negb (fixed v)) vs).

Definition all_variables (b : StateBlockData) : list VarData :=
  flow_mol b :: (getc (mole_frac_comp b) <$> component_list)
    ++ [pressure b; temperature b; dens_mol b].

(** The active equality constraints of a sub-block, each as the list of
    variables it mentions: [ideal_gas_eq] relates pressure, temperature and
    density; [mole_fraction_constraint] the five mole fractions. *)
Definition active_equalities (b : StateBlockData) : list (list VarData) :=
  (if active (ideal_gas_eq b)
   then [[pressure b; temperature b; dens_mol b]] else [])
  ++ match mole_fraction_constraint b with
     | Some c => if active c
                 then [getc (mole_frac_comp b) <$> component_list] else []
     | None => []
     end.

(** Modelled from the spec: [degrees_of_freedom], "free variables minus
    independent active equality constraints". *)
Definition degrees_of_freedom (b : StateBlockData) : Z :=
  (Z.of_nat (sum_list (count_unfixed <$> active_equalities b))
   - Z.of_nat (length (active_equalities b)))%Z.

(** Modelled from the spec: [number_unfixed_variables], the count of
    "free (unfixed) variables" of a sub-block. *)
Definition number_unfixed_variables (b : StateBlockData) : Z :=
  Z.of_nat (count_unfixed (all_variables b)).

(** What a solver run hands back: a value for every variable of every
    sub-block, and either a termination condition or an exception. *)
Record Values : Type := mkValues {
  new_flow_mol : Q;
  new_mole_frac_comp : by_component Q;
  new_pressure : Q;
  new_temperature : Q;
  new_dens_mol : Q
}.

Record SolverRun : Type := mkRun {
  solution : nat -> Values;
  returned : res string
}.

Definition Solver : Type := gmap nat StateBlockData -> SolverRun.

Definition load_one (x : Q) (v : VarData) : VarData :=
  if fixed v then v else mkVar x false.

Definition load_solution (s : Values) (b : StateBlockData) : StateBlockData :=
  mkStateBlockData (defined_state b)
    (load_one (new_flow_mol s) (flow_mol b))
    (map2c load_one (new_mole_frac_comp s) (mole_frac_comp b))
    (load_one (new_pressure s) (pressure b))
    (load_one (new_temperature s) (temperature b))
    (load_one (new_dens_mol s) (dens_mol b))
    (ideal_gas_eq b) (mole_fraction_constraint b).

(** Modelled from the spec: [solve_indexed_blocks], the solver surface
    "solve(indexed_block_collection) -> result_with_status": one solve of
    the aggregate block.  A solver sees fixed variables as constants, so
    its values are loaded into the unfixed variables only. *)
Definition solve_indexed_blocks (solver : Solver) : M string := fun w =>
  let run := solver (blk w) in
  (mkWorld (map_imap (fun k b => Some (load_solution (solution run k) b)) (blk w))
           (log w) (S (solver_calls w)),
   returned run).

(** Modelled from the spec: [idaeslog.condition], the "condition(result)
    accessor" that turns a solver result into the text that is logged. *)
Definition condition (r : option string) : string :=
  match r with
  | Some tc => tc
  | None => "Error, no result"
  end.

(** ** Name and attribute resolution

    A call [f(x)] in a notebook cell looks [f] up in the module namespace
    when the call runs; [getattr] on a [str] looks the method up on the
    built-in type. *)

Definition load_global (g : gmap string (StateBlockData -> Z)) (name : string)
    : M (StateBlockData -> Z) :=
  match g !! name with
  | Some f => mret f
  | None => raise (NameError name)
  end.

(** The import cell binds these two names of
    [idaes.core.util.model_statistics]. *)
Definition notebook_globals : gmap string (StateBlockData -> Z) :=
  {[ "degrees_of_freedom" := degrees_of_freedom;
     "number_unfixed_variables" := number_unfixed_variables ]}.

(** [template.format(a)] for a template with one [{}] field. *)
Fixpoint str_format (template a : string) : string :=
  match template with
  | EmptyString => EmptyString
  | String c rest =>
      match rest with
      | String d rest' =>
          if (Ascii.eqb c "{"%char && Ascii.eqb d "}"%char)%bool
          then a +:+ rest'
          else String c (str_format rest a)
      | EmptyString => String c EmptyString
      end
  end.

Definition str_getattr (attr : string) : M (string -> string -> string) :=
  if decide (attr = "format") then mret str_format
  else raise (AttributeError "str" attr).

(** Modelled from the spec: the logging surface of the framework,
    leveled and tagged loggers for initialization and solver tracing.
    The notebooks import the module [idaes.logger] as [idaeslog]; these
    are the loggers, helpers and levels that the module offers.  Its
    logger for solver tracing is [getSolveLogger]. *)
Definition idaes_logger_names : list string :=
  ["getLogger"; "getIdaesLogger"; "getInitLogger"; "getModelLogger";
   "getSolveLogger"; "solver_log"; "solver_capture_on"; "solver_capture_off";
   "solver_capture"; "condition"; "log_tags"; "valid_log_tags"; "set_log_tags";
   "add_log_tag"; "remove_log_tag"; "add_valid_log_tag";
   "NOTSET"; "DEBUG"; "INFO_HIGH"; "INFO"; "INFO_LOW"; "WARNING"; "ERROR";
   "CRITICAL"].

(** [idaeslog.attr]: the attribute is looked up on the module when the
    statement runs, before the arguments of the call are evaluated. *)
Definition idaeslog_getattr (attr : string) : M unit :=
  if decide (attr ∈ idaes_logger_names) then mret tt
  else raise (AttributeError "idaes.logger" attr).

Definition get_mole_fraction_constraint (b : StateBlockData) : M ConstraintData :=
  match mole_fraction_constraint b with
  | Some c => mret c
  | None => raise (AttributeError "StateBlockData" "mole_fraction_constraint")
  end.

(** ** Thermophysical package: parameters and property expressions *)

Local Open Scope Q_scope.

(** [define_basic_parameters] and [define_specific_heat_parameters]. *)
Record Params : Type := mkParams {
  temperature_ref : Q;
  cp_mol_ig_comp_coeff_A : by_component Q;
  cp_mol_ig_comp_coeff_B : by_component Q;
  cp_mol_ig_comp_coeff_C : by_component Q;
  cp_mol_ig_comp_coeff_D : by_component Q;
  enth_mol_form_vap_comp_ref : by_component Q
}.

(** The values the two functions initialise the parameters with. *)
Definition default_params : Params :=
  mkParams (29815 # 100)
    (ByComponent (-33921 # 1000) (-2435 # 100) (1925 # 100) (2714 # 100) (-9707 # 100))
    (ByComponent (4739 # 100) (5125 # 10000) (5213 # 100000) (9274 # 1000000) (1106 # 1000))
    (ByComponent (-3017 # 10000000) (-2765 # 10000000) (-8855 # 10000000)
                 (-1381 # 100000000) (-8855 # 10000000))
    (ByComponent (7130 # 100000000000) (4911 # 100000000000) (-1132 # 100000000000)
                 (7645 # 1000000000000) (2790 # 10000000000))
    (ByComponent (-82900) (-50100) (-75000) 0 (-180000)).

(** Python's [sum]: starts from 0 and adds left to right. *)
Definition py_sum (xs : list Q) : Q := fold_left Qplus xs 0.

(** The four polynomial terms of the correlation in [enth_rule], in the
    order the source adds them. *)
Definition enth_poly (params : Params) (T : Q) (j : component) : Q :=
  let Tr := temperature_ref params in
  (getc (cp_mol_ig_comp_coeff_D params) j / 4) * (T ^ 4 - Tr ^ 4)
  + (getc (cp_mol_ig_comp_coeff_C params) j / 3) * (T ^ 3 - Tr ^ 3)
  + (getc (cp_mol_ig_comp_coeff_B params) j / 2) * (T ^ 2 - Tr ^ 2)
  + getc (cp_mol_ig_comp_coeff_A params) j * (T - Tr).

(** The factor that multiplies [mole_frac_comp[j]] in [enth_rule]. *)
Definition enth_term (params : Params) (T : Q) (j : component) : Q :=
  enth_poly params T j + getc (enth_mol_form_vap_comp_ref params) j.

(** [add_enth_mol]: the value of the expression [enth_mol] on a sub-block. *)
Definition enth_rule (params : Params) (b : StateBlockData) : Q :=
  py_sum ((fun j => value (getc (mole_frac_comp b) j)
                    * enth_term params (value (temperature b)) j)
          <$> component_list).

(** [add_mole_fraction_constraint], run on the sub-block being built. *)
Definition add_mole_fraction_constraint (self : StateBlockData) : StateBlockData :=
  if defined_state self then self
  else set_mole_fraction_constraint (Some (mkConstraint true)) self.

(** The relation the constraint states: [1e3 == sum(1e3 * x_j)]. *)
Definition mole_fraction_constraint_expr (b : StateBlockData) : Prop :=
  1000 == py_sum ((fun j => 1000 * value (getc (mole_frac_comp b) j)) <$> component_list).

Local Close Scope Q_scope.

(** ** Thermophysical package: the initialization routine *)

Definition dof_message : string :=
  "State vars fixed but degrees of freedom"
  +:+ "for state block is not zero during"
  +:+ "initialization.".

(** The body of the loop that deactivates the sum of mole fractions. *)
Definition deactivate_body (k : nat) : M unit :=
  b ← getitem k;
  if defined_state b then mret tt
  else c ← get_mole_fraction_constraint b;
       setitem k (set_mole_fraction_constraint (Some (deactivate c)) b).

(** The body of the loop that checks the degrees of freedom. *)
Definition check_body (g : gmap string (StateBlockData -> Z)) (k : nat) : M unit :=
  dof ← load_global g "degrees_of_freedom";
  b ← getitem k;
  if decide (dof b = 0%Z) then mret tt else raise (Exception dof_message).

Definition prepare_state (g : gmap string (StateBlockData -> Z))
    (state_args : StateArgs) (state_vars_fixed : bool) : M (option FixFlags) :=
  flags ← (if state_vars_fixed then mret None
           else Some <$> fix_state_vars state_args);
  ks ← keys;
  for_each ks deactivate_body;;
  ks' ← keys;
  for_each ks' (check_body g);;
  mret flags.

Definition initialized_template : string := "Properties Initialized {}.".

(** The body of the loop that counts the free variables. *)
Definition count_body (g : gmap string (StateBlockData -> Z))
    (free_vars : Z) (k : nat) : M Z :=
  f ← load_global g "number_unifxed_variables";
  b ← getitem k;
  mret (free_vars + f b)%Z.

Definition initialize_state (g : gmap string (StateBlockData -> Z))
    (solver : Solver) (outlvl : level) : M unit :=
  ks ← keys;
  free_vars ← for_fold ks 0%Z (count_body g);
  r ← (if decide (0 < free_vars)%Z
       then try_except (Some <$> solve_indexed_blocks solver) (fun _ => mret None)
       else mret None);
  fmt ← str_getattr "formate";
  emit outlvl INFO (fmt initialized_template (condition r)).

(** The body of the loop that reactivates the sum of mole fractions. *)
Definition activate_body (k : nat) : M unit :=
  b ← getitem k;
  if defined_state b then mret tt
  else c ← get_mole_fraction_constraint b;
       setitem k (set_mole_fraction_constraint (Some (activate c)) b).

Definition unfix_state (flags : option FixFlags) (outlvl : level) : M unit :=
  ks ← keys;
  for_each ks activate_body;;
  match flags with
  | Some f => revert_state_vars f
  | None => mret tt
  end;;
  emit outlvl INFO_HIGH "State Released.".

(** [_HDAStateBlock.release_state]. *)
Definition release_state (flags : option FixFlags) (outlvl : level) : M unit :=
  unfix_state flags outlvl.

(** [blk.release_state(flags)] leaves [outlvl] at its default. *)
Definition restore_state (flags : option FixFlags) (hold_state : bool)
    : M (option FixFlags) :=
  if hold_state then mret flags
  else release_state flags NOTSET;; mret None.

(** The statements of [_HDAStateBlock.initialize] from the call of
    [prepare_state] to the end of its body.  The function has no [return]
    statement, so they hand [None] to the caller when they complete. *)
Definition initialize_steps (g : gmap string (StateBlockData -> Z))
    (state_args : StateArgs) (state_vars_fixed hold_state : bool)
    (outlvl : level) (solver_obj : Solver) : M (option FixFlags) :=
  flags ← prepare_state g state_args state_vars_fixed;
  initialize_state g solver_obj outlvl;;
  restore_state flags hold_state;;
  emit outlvl INFO "Initialization Complete";;
  mret None.

(** [_HDAStateBlock.initialize].  Its first two statements ask the module
    [idaeslog] for [getInitLogger] and for [getSolverLogger]; the call
    [get_solver(solver, optarg)] follows them, and [solver_obj] is what it
    would return. *)
Definition initialize (g : gmap string (StateBlockData -> Z))
    (state_args : StateArgs) (state_vars_fixed hold_state : bool)
    (outlvl : level) (solver_obj : Solver) : M (option FixFlags) :=
  idaeslog_getattr "getInitLogger";;
  idaeslog_getattr "getSolverLogger";;
  initialize_steps g state_args state_vars_fixed hold_state outlvl solver_obj.

(** ** Reaction package *)

Module Reaction.

Local Open Scope Q_scope.

(** The leaves of the expressions the reaction block builds: its own
    [k_eq], [k_rxn] and [reaction_rate["R1"]], and the pressure and mole
    fractions it reads through [state_ref]. *)
Inductive atom : Type :=
| k_eq_param
| k_rxn_var
| reaction_rate_var
| state_pressure
| state_mole_frac_comp (j : component).

(** Pyomo expression trees, as far as the operators [*], [/] and [**]
    of the two cells build them. *)
Inductive expr : Type :=
| Atom (a : atom)
| Mul (e1 e2 : expr)
| Div (e1 e2 : expr)
| Pow (e : expr) (n : nat).

(** An equality constraint [lhs == rhs]. *)
Record relation : Type := Equality { lhs : expr; rhs : expr }.

(** [define_variables_and_parameters] and the three constraints, with
    [state_ref] as the key of the state sub-block referred to. *)
Record ReactionBlockData : Type := mkReactionBlockData {
  k_rxn : VarData;
  reaction_rate : VarData;
  k_eq : Q;
  arrhenius_equation : ConstraintData;
  rate_expression : ConstraintData;
  equilibrium_constraint : ConstraintData;
  state_ref : nat
}.

(** [rate_rule] for the one kinetic reaction ["R1"]. *)
Definition rate_rule : relation :=
  Equality (Atom reaction_rate_var)
           (Mul (Mul (Mul (Atom k_rxn_var) (Atom (state_mole_frac_comp toluene)))
                     (Atom (state_mole_frac_comp hydrogen)))
                (Pow (Atom state_pressure) 2)).

(** [define_equilibrium_expression]: the body of [equilibrium_constraint]. *)
Definition define_equilibrium_expression : relation :=
  Equality (Mul (Mul (Atom k_eq_param) (Atom (state_mole_frac_comp benzene)))
                (Atom state_pressure))
           (Mul (Mul (Atom (state_mole_frac_comp diphenyl))
                     (Atom (state_mole_frac_comp hydrogen)))
                (Pow (Atom state_pressure) 2)).

(** The relation as the markdown cell above it writes it, before the
    rearrangement: k_eq = (x_diphenyl x_hydrogen P^2) / (x_benzene P). *)
Definition ratio_form : relation :=
  Equality (Atom k_eq_param)
           (Div (Mul (Mul (Atom (state_mole_frac_comp diphenyl))
                          (Atom (state_mole_frac_comp hydrogen)))
                     (Pow (Atom state_pressure) 2))
                (Mul (Atom (state_mole_frac_comp benzene)) (Atom state_pressure))).


Definition atom_value (rb : ReactionBlockData) (sb : StateBlockData) (a : atom) : Q :=
  match a with
  | k_eq_param => k_eq rb
  | k_rxn_var => value (k_rxn rb)
  | reaction_rate_var => value (reaction_rate rb)
  | state_pressure => value (pressure sb)
  | state_mole_frac_comp j => value (getc (mole_frac_comp sb) j)
  end.

(** Numeric value of an expression; [None] is a division by zero. *)
Fixpoint eval (rb : ReactionBlockData) (sb : StateBlockData) (e : expr) : option Q :=
  match e with
  | Atom a => Some (atom_value rb sb a)
  | Mul e1 e2 =>
      match eval rb sb e1, eval rb sb e2 with
      | Some x, Some y => Some (x * y)
      | _, _ => None
      end
  | Div e1 e2 =>
      match eval rb sb e1, eval rb sb e2 with
      | Some x, Some y => if Qeq_bool y 0 then None else Some (x / y)
      | _, _ => None
      end
  | Pow e n =>
      match eval rb sb e with
      | Some x => Some (x ^ Z.of_nat n)
      | None => None
      end
  end.

(** The relation is satisfied by the values of the two blocks. *)
Definition holds (rb : ReactionBlockData) (sb : StateBlockData) (r : relation) : Prop :=
  exists x y, eval rb sb (lhs r) = Some x /\ eval rb sb (rhs r) = Some y /\ x == y.

(** The reaction blocks next to the world of the state blocks they
    refer to. *)
Record RWorld : Type := mkRWorld {
  reactions : gmap nat ReactionBlockData;
  states : World
}.

(** [_HDAReactionBlock.initialize(blk, outlvl, **kwargs)]. *)
Definition initialize (outlvl : level) (kwargs : gmap string Q)
    : RWorld -> RWorld * res unit := fun w =>
  match emit outlvl INFO "Initialization complete." (states w) with
  | (s, r) => (mkRWorld (reactions w) s, r)
  end.

End Reaction.

(** ** Sample blocks *)

Local Open Scope Q_scope.

Definition free_var (x : Q) : VarData := mkVar x false.

(** A sub-block with every variable free and at the initial value that
    [add_state_variables] and [add_molecular_weight_and_density] name for
    it, [ideal_gas_eq] active, and the sum of mole fractions added by
    [add_mole_fraction_constraint]. *)
Definition built_sub_block (defined : bool) : StateBlockData :=
  add_mole_fraction_constraint
    (mkStateBlockData defined (free_var 1) (constc (free_var (2 # 10)))
       (free_var 101325) (free_var (29815 # 100)) (free_var 1)
       (mkConstraint true) None).

(** An indexed block with an internal state at index 0 and an externally
    defined (inlet) state at index 1. *)
Definition sample_world : World :=
  mkWorld {[ 0%nat := built_sub_block false; 1%nat := built_sub_block true ]} [] 0.

(** A single internal state. *)
Definition single_world : World :=
  mkWorld {[ 0%nat := built_sub_block false ]} [] 0.

Definition sample_args : StateArgs :=
  mkStateArgs (Some 100%Q) None (Some 500%Q) (Some 350000%Q).

(** A solver that reports success and proposes density 2 everywhere. *)
Definition sample_solver : Solver := fun m =>
  mkRun (fun _ => mkValues 1 (constc (2 # 10)) 101325 (29815 # 100) 2)
        (Val "optimal - Optimal Solution Found").

(** A solver whose run ends in an exception. *)
Definition failing_solver : Solver := fun m =>
  mkRun (fun _ => mkValues 1 (constc (2 # 10)) 101325 (29815 # 100) 1)
        (Exc (SolverError "solver crashed")).

(** A state at the demonstration pressure whose mole fractions satisfy the
    equilibrium ratio for [k_eq = 10000]. *)
Definition equilibrium_state : StateBlockData :=
  mkStateBlockData false (free_var 100)
    (ByComponent (free_var (35 # 100)) (free_var (25 # 100)) (free_var (20 # 100))
                 (free_var (10 # 100)) (free_var (10 # 100)))
    (free_var 350000) (free_var 500) (free_var 1)
    (mkConstraint true) (Some (mkConstraint true)).


(** An inlet state whose state variables the caller has fixed already. *)
Definition fixed_inlet : StateBlockData :=
  mkStateBlockData true (mkVar 100 true)
    (ByComponent (mkVar (1 # 10) true) (mkVar (4 # 10) true) (mkVar (1 # 10) true)
                 (mkVar (4 # 10) true) (mkVar 0 true))
    (mkVar 350000 true) (mkVar 500 true) (free_var 1)
    (mkConstraint true) None.

Definition fixed_inlet_world : World := mkWorld {[ 0%nat := fixed_inlet ]} [] 0.

(** An internal state whose density the caller has fixed as well, so that
    fixing the state variables over-specifies it. *)
Definition overspecified_world : World :=
  mkWorld {[ 0%nat := mkStateBlockData false (free_var 1) (constc (free_var (2 # 10)))
                        (free_var 101325) (free_var (29815 # 100)) (mkVar 1 true)
                        (mkConstraint true) (Some (mkConstraint true)) ]} [] 0.

(** An internal state whose sum of mole fractions the caller deactivated
    before initialization. *)
Definition deactivated_world : World :=
  mkWorld {[ 0%nat := set_mole_fraction_constraint (Some (mkConstraint false))
                        (built_sub_block false) ]} [] 0.

Definition sample_reaction_block : Reaction.ReactionBlockData :=
  Reaction.mkReactionBlockData (free_var (7 # 10000000000)) (free_var 0) 10000
    (mkConstraint true) (mkConstraint true) (mkConstraint true) 0%nat.

Local Close Scope Q_scope.

(** ** Vocabulary of the statements *)

(** What either loop over the sum of mole fractions does to one sub-block
    when it gets through: [a] is the new activity of the constraint. *)
Definition toggle (a : bool) (b : StateBlockData) : StateBlockData :=
  if defined_state b then b
  else match mole_fraction_constraint b with
       | Some c => set_mole_fraction_constraint (Some (mkConstraint a)) b
       | None => b
       end.

Definition toggle_body (a : bool) (k : nat) : M unit :=
  if a then activate_body k else deactivate_body k.

(** A sub-block owns the constraint whenever its state is not defined
    from outside, as [add_mole_fraction_constraint] leaves it. *)
Definition owns_constraint (b : StateBlockData) : Prop :=
  defined_state b = false -> is_Some (mole_fraction_constraint b).

(** The world once the first statement of [prepare_state] has run. *)
Definition after_fixing (state_args : StateArgs) (state_vars_fixed : bool)
    (w : World) : World :=
  if state_vars_fixed then w
  else set_blk (fix_sub_block state_args <$> blk w) w.

(** The flags the first statement of [prepare_state] produces. *)
Definition produced_flags (state_vars_fixed : bool) (w : World) : option FixFlags :=
  if state_vars_fixed then None else Some (flags_of <$> blk w).

(** A sub-block once [prepare_state] has fixed it and deactivated its sum
    of mole fractions. *)
Definition prepared (state_args : StateArgs) (state_vars_fixed : bool)
    (b : StateBlockData) : StateBlockData :=
  toggle false (if state_vars_fixed then b else fix_sub_block state_args b).

(** Two sub-blocks with the same configuration and the same constraints. *)
Definition same_constraints (b b' : StateBlockData) : Prop :=
  defined_state b' = defined_state b
  /\ ideal_gas_eq b' = ideal_gas_eq b
  /\ mole_fraction_constraint b' = mole_fraction_constraint b.

(** The world once [solve_indexed_blocks] has run. *)
Definition solved (solver : Solver) (w : World) : World :=
  (solve_indexed_blocks solver w).1.

(** The count that the loop of [initialize_state] accumulates with [f]. *)
Definition counted (f : StateBlockData -> Z) (w : World) (a0 : Z) (ks : list nat) : Z :=
  foldl (fun acc k => acc + from_option f 0 (blk w !! k))%Z a0 ks.

(** The value [state_args] passes for one state variable. *)
Definition passed_value (state_args : StateArgs) (n : state_var_key) : option Q :=
  match n with
  | key_flow_mol => arg_flow_mol state_args
  | key_mole_frac_comp j => (fun xs => getc xs j) <$> arg_mole_frac_comp state_args
  | key_temperature => arg_temperature state_args
  | key_pressure => arg_pressure state_args
  end.

(** What the flags record for one state variable. *)
Definition recorded (f : SubFlags) (n : state_var_key) : bool :=
  match n with
  | key_flow_mol => was_fixed_flow_mol f
  | key_mole_frac_comp j => getc (was_fixed_mole_frac_comp f) j
  | key_temperature => was_fixed_temperature f
  | key_pressure => was_fixed_pressure f
  end.

(** A sub-block once [unfix_state] has reactivated its sum of mole
    fractions and reverted it with the flags kept for index [k]. *)
Definition released (flags : option FixFlags) (k : nat) (b : StateBlockData)
    : StateBlockData :=
  match flags with
  | Some f => match f !! k with
              | Some sf => revert_sub_block sf (toggle true b)
              | None => toggle true b
              end
  | None => toggle true b
  end.

(** The flags cover every sub-block of the world. *)
Definition flags_cover (flags : option FixFlags) (w : World) : Prop :=
  forall f, flags = Some f -> map_Forall (fun k _ => is_Some (f !! k)) (blk w).

(** What the solve step may do to a sub-block: nothing, or load a
    solution into its unfixed variables. *)
Definition solve_step_of (b b' : StateBlockData) : Prop :=
  b' = b \/ exists s, b' = load_solution s b.

(** Two worlds whose blocks differ by a solve step at most. *)
Definition solve_step_between (w w' : World) : Prop :=
  forall k, match blk w !! k with
            | Some b => exists b', blk w' !! k = Some b' /\ solve_step_of b b'
            | None => blk w' !! k = None
            end.

(** Release run after [prepare_state] (with [state_vars_fixed] False) and
    the solve step, with the flags that [prepare_state] produced. *)
Definition round_trip (g : gmap string (StateBlockData -> Z)) (state_args : StateArgs)
    (solver : Solver) (outlvl : level) (w : World) : World * res unit :=
  match prepare_state g state_args false w with
  | (w1, Val flags) =>
      unfix_state flags outlvl (initialize_state g solver outlvl w1).1
  | (w1, Exc e) => (w1, Exc e)
  end.

(** ** Further sample blocks *)

(** An internal state on which [add_mole_fraction_constraint] was never
    run, so that the attribute [mole_fraction_constraint] is absent. *)
Definition unbuilt_world : World :=
  mkWorld {[ 0%nat := mkStateBlockData false (free_var 1%Q) (constc (free_var (2 # 10)%Q))
                        (free_var 101325%Q) (free_var (29815 # 100)%Q) (free_var 1%Q)
                        (mkConstraint true) None ]} [] 0.

(** The notebook's namespace with the misspelled name bound as well, as
    after [number_unifxed_variables = number_unfixed_variables]. *)
Definition patched_globals : gmap string (StateBlockData -> Z) :=
  <["number_unifxed_variables" := number_unfixed_variables]> notebook_globals.

(** An internal state whose state variables the caller has fixed already,
    with the sum of mole fractions active. *)
Definition fixed_internal_world : World :=
  mkWorld {[ 0%nat := mkStateBlockData false (mkVar 100%Q true)
                        (ByComponent (mkVar (1 # 10)%Q true) (mkVar (4 # 10)%Q true)
                           (mkVar (1 # 10)%Q true) (mkVar (4 # 10)%Q true)
                           (mkVar 0%Q true))
                        (mkVar 350000%Q true) (mkVar 500%Q true) (free_var 1%Q)
                        (mkConstraint true) (Some (mkConstraint true)) ]} [] 0.

(** The exception of a loop over the sum of mole fractions that meets a
    sub-block without the attribute. *)
Definition missing_constraint : exn :=
  AttributeError "StateBlockData" "mole_fraction_constraint".

(** A state of pure methane at 400 K. *)
Definition pure_methane : StateBlockData :=
  mkStateBlockData true (free_var 1%Q)
    (ByComponent (free_var 0%Q) (free_var 0%Q) (free_var 1%Q) (free_var 0%Q) (free_var 0%Q))
    (free_var 101325%Q) (free_var 400%Q) (free_var 1%Q) (mkConstraint true) None.

(** A state without benzene in which diphenyl is absent as well. *)
Definition benzene_free_state : StateBlockData :=
  mkStateBlockData false (free_var 100%Q)
    (ByComponent (free_var 0%Q) (free_var (4 # 10)%Q) (free_var (2 # 10)%Q)
                 (free_var (4 # 10)%Q) (free_var 0%Q))
    (free_var 350000%Q) (free_var 500%Q) (free_var 1%Q)
    (mkConstraint true) (Some (mkConstraint true)).

(** A reaction block whose rate satisfies [rate_rule] on
    [equilibrium_state]: 7e-10 * 0.25 * 0.1 * 350000^2. *)
Definition rating_reaction_block : Reaction.ReactionBlockData :=
  Reaction.mkReactionBlockData (free_var (7 # 10000000000)%Q)
    (free_var (214375 # 100000)%Q) 10000%Q
    (mkConstraint true) (mkConstraint true) (mkConstraint true) 0%nat.

(** The blend of equal amounts of [fixed_inlet] and [equilibrium_state],
    at their temperature. *)
Definition blend_state : StateBlockData :=
  mkStateBlockData false (free_var 100%Q)
    (ByComponent (free_var (225 # 1000)%Q) (free_var (325 # 1000)%Q)
                 (free_var (15 # 100)%Q) (free_var (25 # 100)%Q)
                 (free_var (5 # 100)%Q))
    (free_var 350000%Q) (free_var 500%Q) (free_var 1%Q)
    (mkConstraint true) (Some (mkConstraint true)).

(** [equilibrium_state] at half its pressure. *)
Definition half_pressure_state : StateBlockData :=
  mkStateBlockData false (free_var 100%Q)
    (ByComponent (free_var (35 # 100)%Q) (free_var (25 # 100)%Q) (free_var (20 # 100)%Q)
                 (free_var (10 # 100)%Q) (free_var (10 # 100)%Q))
    (free_var 175000%Q) (free_var 500%Q) (free_var 1%Q)
    (mkConstraint true) (Some (mkConstraint true)).

(** A reaction block whose rate satisfies [rate_rule] on
    [half_pressure_state]: 7e-10 * 0.25 * 0.1 * 175000^2. *)
Definition half_rate_reaction_block : Reaction.ReactionBlockData :=
  Reaction.mkReactionBlockData (free_var (7 # 10000000000)%Q)
    (free_var (214375 # 400000)%Q) 10000%Q
    (mkConstraint true) (mkConstraint true) (mkConstraint true) 0%nat.

(** ** Thermophysical package: parameter tables *)

(** The name under which each component indexes the tables. *)
Definition component_name (j : component) : string :=
  match j with
  | benzene => "benzene"
  | toluene => "toluene"
  | methane => "methane"
  | hydrogen => "hydrogen"
  | diphenyl => "diphenyl"
  end.

Module Parameters.

Local Open Scope Q_scope.

(** [define_basic_parameters]: the [initialize] dict of [mw_comp]. *)
Definition mw_comp : gmap string Q :=
  {[ "benzene" := 781136 # 10000000;
     "toluene" := 921405 # 10000000;
     "hydrogen" := 2016 # 1000000;
     "methane" := 16043 # 1000000;
     "diphenyl" := 154212 # 10000000 ]}.

(** [define_specific_heat_parameters]: the [initialize] dicts of the five
    indexed variables, each of which the function fixes. *)
Definition cp_mol_ig_comp_coeff_A : gmap string Q :=
  {[ "benzene" := -33921 # 1000;
     "toluene" := -2435 # 100;
     "hydrogen" := 2714 # 100;
     "methane" := 1925 # 100;
     "diphenyl" := -9707 # 100 ]}.

Definition cp_mol_ig_comp_coeff_B : gmap string Q :=
  {[ "benzene" := 4739 # 100;
     "toluene" := 5125 # 10000;
     "hydrogen" := 9274 # 1000000;
     "methane" := 5213 # 100000;
     "diphenyl" := 1106 # 1000 ]}.

Definition cp_mol_ig_comp_coeff_C : gmap string Q :=
  {[ "benzene" := -3017 # 10000000;
     "toluene" := -2765 # 10000000;
     "hydrogen" := -1381 # 100000000;
     "methane" := -8855 # 10000000;
     "diphenyl" := -8855 # 10000000 ]}.

Definition cp_mol_ig_comp_coeff_D : gmap string Q :=
  {[ "benzene" := 7130 # 100000000000;
     "toluene" := 4911 # 100000000000;
     "hydrogen" := 7645 # 1000000000000;
     "methane" := -1132 # 100000000000;
     "diphenyl" := 2790 # 10000000000 ]}.

Definition enth_mol_form_vap_comp_ref : gmap string Q :=
  {[ "benzene" := -82900;
     "toluene" := -50100;
     "hydrogen" := 0;
     "methane" := -75000;
     "diphenyl" := -180000 ]}.

(** The six tables, in the order the two functions declare them. *)
Definition tables : list (gmap string Q) :=
  [mw_comp; cp_mol_ig_comp_coeff_A; cp_mol_ig_comp_coeff_B; cp_mol_ig_comp_coeff_C;
   cp_mol_ig_comp_coeff_D; enth_mol_form_vap_comp_ref].

(** The [Params] record read off the tables. *)
Definition of_tables : option Params :=
  let row (t : gmap string Q) : option (by_component Q) :=
    b ← t !! "benzene"; o ← t !! "toluene"; m ← t !! "methane";
    h ← t !! "hydrogen"; d ← t !! "diphenyl";
    Some (ByComponent b o m h d) in
  a ← row cp_mol_ig_comp_coeff_A; b ← row cp_mol_ig_comp_coeff_B;
  c ← row cp_mol_ig_comp_coeff_C; d ← row cp_mol_ig_comp_coeff_D;
  h ← row enth_mol_form_vap_comp_ref;
  Some (mkParams (29815 # 100) a b c d h).

End Parameters.

(** ** Reaction package: reaction parameters *)

Module ReactionParameters.

(** [define_kinetic_reactions]. *)
Definition rate_reaction_idx : list string := ["R1"].

Definition rate_reaction_stoichiometry : gmap (string * string * string) Z :=
  {[ ("R1", "Vap", "benzene") := 1%Z;
     ("R1", "Vap", "toluene") := (-1)%Z;
     ("R1", "Vap", "hydrogen") := (-1)%Z;
     ("R1", "Vap", "methane") := 1%Z;
     ("R1", "Vap", "diphenyl") := 0%Z ]}.

(** [define_equilibrium_reactions]. *)
Definition equilibrium_reaction_idx : list string := ["E1"].

Definition equilibrium_reaction_stoichiometry : gmap (string * string * string) Z :=
  {[ ("E1", "Vap", "benzene") := (-2)%Z;
     ("E1", "Vap", "toluene") := 0%Z;
     ("E1", "Vap", "hydrogen") := 1%Z;
     ("E1", "Vap", "methane") := 0%Z;
     ("E1", "Vap", "diphenyl") := 1%Z ]}.

(** The keys a table over the reactions [idx] must have: one per
    reaction, phase and component. *)
Definition expected_keys (idx : list string) : list (string * string * string) :=
  r ← idx; j ← component_list; [(r, "Vap", component_name j)].

(** The change in the amount of component [j] when the kinetic reaction
    advances by [xi_R1] and the equilibrium reaction by [xi_E1]. *)
Definition generation (xi_R1 xi_E1 : Q) (j : component) : Q :=
  (inject_Z (default 0%Z (rate_reaction_stoichiometry !! ("R1", "Vap", component_name j)))
   * xi_R1
   + inject_Z (default 0%Z
                 (equilibrium_reaction_stoichiometry !! ("E1", "Vap", component_name j)))
     * xi_E1)%Q.

End ReactionParameters.

(** ** Reaction package: the Arrhenius equation *)

Module Kinetics.

Local Open Scope R_scope.

(** [define_rate_expression]: the right-hand side of
    [arrhenius_equation], as a function of the two parameters of
    [define_parameters], the gas constant and the temperature of the
    state block. *)
Definition arrhenius_rhs (arrhenius energy_activation gas_constant temperature : R) : R :=
  arrhenius * exp ((- energy_activation) / (gas_constant * temperature)).

(** [define_parameters]: the defaults of the two parameters. *)
Definition arrhenius_default : R := 125 / 100000000000.
Definition energy_activation_default : R := 3800.

End Kinetics.

(** * Properties *)

(** ** The monad *)

Lemma bind_eq {A B} (m : M A) (k : A -> M B) (w : World) :
  (m ≫= k) w = match m w with
               | (w', Val a) => k a w'
               | (w', Exc e) => (w', Exc e)
               end.
Proof. reflexivity. Qed.

Lemma ret_eq {A} (a : A) (w : World) : mret (M := M) a w = (w, Val a).
Proof. reflexivity. Qed.

Lemma fmap_eq {A B} (f : A -> B) (m : M A) (w : World) :
  (f <$> m) w = match m w with
                | (w', Val a) => (w', Val (f a))
                | (w', Exc e) => (w', Exc e)
                end.
Proof. reflexivity. Qed.

Lemma keys_eq (w : World) : keys w = (w, Val (map_to_list (blk w)).*1).
Proof. reflexivity. Qed.

Lemma elem_of_keys (m : gmap nat StateBlockData) (k : nat) :
  k ∈ (map_to_list m).*1 <-> is_Some (m !! k).
Proof.
  rewrite list_elem_of_fmap. split.
  - intros [[k' b] [-> Hin]]. apply elem_of_map_to_list in Hin. eauto.
  - intros [b Hb]. exists (k, b). split; [done|]. by apply elem_of_map_to_list.
Qed.

Lemma NoDup_keys (m : gmap nat StateBlockData) : NoDup (map_to_list m).*1.
Proof. apply NoDup_fst_map_to_list. Qed.

(** ** The loops over the sum of mole fractions *)

Lemma toggle_defined a b : defined_state b = true -> toggle a b = b.
Proof. unfold toggle. by intros ->. Qed.

Lemma toggle_body_step a k w :
  match blk w !! k with
  | None => toggle_body a k w = (w, Exc (KeyError k))
  | Some b =>
      if defined_state b then toggle_body a k w = (w, Val tt)
      else match mole_fraction_constraint b with
           | None => toggle_body a k w
                     = (w, Exc (AttributeError "StateBlockData" "mole_fraction_constraint"))
           | Some c => toggle_body a k w
                       = (set_blk (<[k := toggle a b]> (blk w)) w, Val tt)
           end
  end.
Proof.
  unfold toggle_body, activate_body, deactivate_body, toggle.
  destruct a; rewrite bind_eq; unfold getitem;
    destruct (blk w !! k) as [b|]; try reflexivity;
    destruct (defined_state b); try reflexivity;
    unfold get_mole_fraction_constraint; rewrite bind_eq;
    destruct (mole_fraction_constraint b); reflexivity.
Qed.

(** One pass of a loop: bookkeeping is untouched, keys outside the loop
    are untouched, every sub-block is either as before or toggled, and the
    loop gets through exactly when no visited sub-block lacks the
    constraint it should own. *)
Lemma for_each_toggle a ks :
  NoDup ks ->
  forall w w' r, for_each ks (toggle_body a) w = (w', r) ->
    log w' = log w /\ solver_calls w' = solver_calls w
    /\ (forall k, k ∉ ks -> blk w' !! k = blk w !! k)
    /\ (forall k, blk w' !! k = blk w !! k \/ blk w' !! k = toggle a <$> (blk w !! k))
    /\ (r = Val tt -> forall k, k ∈ ks -> blk w' !! k = toggle a <$> (blk w !! k))
    /\ ((forall k, k ∈ ks -> exists b, blk w !! k = Some b /\ owns_constraint b)
        <-> r = Val tt).
Proof.
  induction 1 as [|k ks Hk Hnd IH]; intros w w' r Hrun.
  - cbn in Hrun. rewrite ret_eq in Hrun. injection Hrun as <- <-.
    repeat split; auto; intros; exfalso; eapply elem_of_nil; eauto.
  - cbn [for_each] in Hrun. rewrite bind_eq in Hrun.
    pose proof (toggle_body_step a k w) as Hstep.
    destruct (blk w !! k) as [b|] eqn:Hb.
    2:{ rewrite Hstep in Hrun. injection Hrun as <- <-.
        repeat split; auto; try discriminate.
        intros Hall. destruct (Hall k) as [b [Hb' _]]; [left|congruence]. }
    destruct (defined_state b) eqn:Hd.
    + rewrite Hstep in Hrun. apply IH in Hrun as (Hl & Hs & Hout & Hany & Hval & Hok).
      repeat split; auto.
      * intros k' Hk'. apply Hout. intros ?. apply Hk'. by right.
      * intros -> k' Hk'. apply elem_of_cons in Hk' as [->|Hk'].
        -- rewrite Hout by done. rewrite Hb. cbn. by rewrite toggle_defined.
        -- by apply Hval.
      * intros Hall. apply Hok. intros k' Hk'. apply Hall. by right.
      * intros Hr k' Hk'. apply elem_of_cons in Hk' as [->|Hk'].
        -- exists b. split; [done|]. intros ?; congruence.
        -- apply Hok; done.
    + destruct (mole_fraction_constraint b) as [c|] eqn:Hc.
      2:{ rewrite Hstep in Hrun. injection Hrun as <- <-.
          repeat split; auto; try discriminate.
          intros Hall. destruct (Hall k) as [b' [Hb' Hown]]; [left|].
          assert (b' = b) as -> by congruence.
          destruct (Hown Hd) as [c Hc']. congruence. }
      rewrite Hstep in Hrun. apply IH in Hrun as (Hl & Hs & Hout & Hany & Hval & Hok).
      cbn in Hl, Hs, Hout, Hany, Hval, Hok.
      assert (forall k', k' ∈ ks -> k' <> k) as Hne by (intros k' ? ->; done).
      repeat split; auto.
      * intros k' Hk'. rewrite Hout by (intros ?; apply Hk'; by right).
        apply lookup_insert_ne. intros ->. apply Hk'. by left.
      * intros k'. destruct (decide (k' = k)) as [->|Hne'].
        -- right. rewrite Hout by done. rewrite lookup_insert_eq. by rewrite Hb.
        -- destruct (Hany k') as [He|He]; rewrite He, lookup_insert_ne by done; auto.
      * intros -> k' Hk'. apply elem_of_cons in Hk' as [->|Hk'].
        -- rewrite Hout by done. rewrite lookup_insert_eq. by rewrite Hb.
        -- rewrite Hval by done. rewrite lookup_insert_ne; [done|].
           intros ->. done.
      * intros Hall. apply Hok. intros k' Hk'.
        destruct (Hall k') as [b' [Hb' Hown]]; [by right|].
        exists b'. split; [|done]. rewrite lookup_insert_ne; [done|].
        intros ->. done.
      * intros Hr k' Hk'. apply elem_of_cons in Hk' as [->|Hk'].
        -- exists b. split; [done|]. intros _. rewrite Hc. eauto.
        -- destruct Hok as [_ Hok]. destruct (Hok Hr k' Hk') as [b' [Hb' Hown]].
           exists b'. split; [|done].
           rewrite lookup_insert_ne in Hb'; [done|]. intros ->. by apply (Hne k').
Qed.

Lemma world_eq (w w' : World) :
  blk w' = blk w -> log w' = log w -> solver_calls w' = solver_calls w -> w' = w.
Proof. destruct w, w'; cbn; congruence. Qed.

Lemma toggle_all_val a w w' :
  for_each (map_to_list (blk w)).*1 (toggle_body a) w = (w', Val tt) ->
  w' = set_blk (toggle a <$> blk w) w.
Proof.
  intros Hrun.
  apply (for_each_toggle a _ (NoDup_keys (blk w))) in Hrun
    as (Hl & Hs & Hout & _ & Hval & _).
  apply world_eq; cbn; [|done..].
  apply map_eq. intros k. rewrite lookup_fmap.
  destruct (decide (k ∈ (map_to_list (blk w)).*1)) as [Hin|Hnin].
  - by apply Hval.
  - rewrite Hout by done.
    destruct (blk w !! k) eqn:Hb; [|done].
    exfalso. apply Hnin, elem_of_keys. eauto.
Qed.

Lemma toggle_all_owns a w w' :
  for_each (map_to_list (blk w)).*1 (toggle_body a) w = (w', Val tt) ->
  map_Forall (fun _ b => owns_constraint b) (blk w).
Proof.
  intros Hrun.
  apply (for_each_toggle a _ (NoDup_keys (blk w))) in Hrun
    as (_ & _ & _ & _ & _ & Hok).
  intros k b Hb. destruct Hok as [_ Hok].
  destruct (Hok eq_refl k) as [b' [Hb' Hown]]; [apply elem_of_keys; eauto|].
  replace b with b' by congruence. done.
Qed.

Lemma toggle_all_ok a w :
  map_Forall (fun _ b => owns_constraint b) (blk w) ->
  for_each (map_to_list (blk w)).*1 (toggle_body a) w
  = (set_blk (toggle a <$> blk w) w, Val tt).
Proof.
  intros Hown.
  destruct (for_each (map_to_list (blk w)).*1 (toggle_body a) w) as [w' r] eqn:Hrun.
  pose proof Hrun as Hrun'.
  apply (for_each_toggle a _ (NoDup_keys (blk w))) in Hrun'
    as (_ & _ & _ & _ & _ & Hok).
  assert (r = Val tt) as ->.
  { apply Hok. intros k Hin. apply elem_of_keys in Hin as [b Hb].
    exists b. split; [done|]. by apply (Hown k). }
  by rewrite (toggle_all_val _ _ _ Hrun).
Qed.

(** ** The degrees-of-freedom check *)

Lemma check_body_step g k w :
  match g !! "degrees_of_freedom" with
  | None => check_body g k w = (w, Exc (NameError "degrees_of_freedom"))
  | Some dof =>
      match blk w !! k with
      | None => check_body g k w = (w, Exc (KeyError k))
      | Some b => check_body g k w
                  = (w, if decide (dof b = 0%Z) then Val tt
                        else Exc (Exception dof_message))
      end
  end.
Proof.
  unfold check_body, load_global. rewrite bind_eq.
  destruct (g !! "degrees_of_freedom") as [dof|]; [|reflexivity].
  rewrite ret_eq, bind_eq. unfold getitem.
  destruct (blk w !! k) as [b|]; [|reflexivity].
  destruct (decide (dof b = 0%Z)); reflexivity.
Qed.

(** The check only reads. *)
Lemma for_each_check_world g ks w w' r :
  for_each ks (check_body g) w = (w', r) -> w' = w.
Proof.
  revert w w' r. induction ks as [|k ks IH]; intros w w' r Hrun.
  - cbn in Hrun. rewrite ret_eq in Hrun. congruence.
  - cbn [for_each] in Hrun. rewrite bind_eq in Hrun.
    pose proof (check_body_step g k w) as Hstep.
    destruct (g !! "degrees_of_freedom") as [dof|].
    + destruct (blk w !! k) as [b|].
      * rewrite Hstep in Hrun. destruct (decide (dof b = 0%Z)); [eauto|congruence].
      * rewrite Hstep in Hrun. congruence.
    + rewrite Hstep in Hrun. congruence.
Qed.

Lemma for_each_check_val g dof ks w :
  g !! "degrees_of_freedom" = Some dof ->
  for_each ks (check_body g) w = (w, Val tt) ->
  forall k, k ∈ ks -> exists b, blk w !! k = Some b /\ dof b = 0%Z.
Proof.
  intros Hg. induction ks as [|k ks IH]; intros Hrun k' Hin.
  - by apply elem_of_nil in Hin.
  - cbn [for_each] in Hrun. rewrite bind_eq in Hrun.
    pose proof (check_body_step g k w) as Hstep. rewrite Hg in Hstep.
    destruct (blk w !! k) as [b|] eqn:Hb; rewrite Hstep in Hrun; [|congruence].
    destruct (decide (dof b = 0%Z)) as [Hz|]; [|congruence].
    apply elem_of_cons in Hin as [->|Hin]; eauto.
Qed.

Lemma for_each_check_run g dof ks w :
  g !! "degrees_of_freedom" = Some dof ->
  (forall k, k ∈ ks -> is_Some (blk w !! k)) ->
  for_each ks (check_body g) w
  = (w, if decide (Forall (fun k => dof <$> blk w !! k = Some 0%Z) ks)
        then Val tt else Exc (Exception dof_message)).
Proof.
  intros Hg. induction ks as [|k ks IH]; intros Hall.
  - cbn. rewrite ret_eq. by rewrite decide_True by constructor.
  - cbn [for_each]. rewrite bind_eq.
    pose proof (check_body_step g k w) as Hstep. rewrite Hg in Hstep.
    destruct (Hall k) as [b Hb]; [left|]. rewrite Hb in Hstep. rewrite Hstep.
    destruct (decide (dof b = 0%Z)) as [Hz|Hnz].
    + rewrite IH by (intros; apply Hall; by right).
      destruct (decide (Forall _ ks)) as [Hf|Hnf].
      * rewrite decide_True; [done|]. constructor; [|done]. rewrite Hb. cbn. by rewrite Hz.
      * rewrite decide_False; [done|]. intros Hf. apply Hnf. by inversion Hf.
    + rewrite decide_False; [done|]. intros Hf. inversion Hf as [|? ? Hk _]; subst.
      rewrite Hb in Hk. cbn in Hk. congruence.
Qed.

(** ** [prepare_state] *)

Lemma prepare_state_unfold g state_args state_vars_fixed w :
  prepare_state g state_args state_vars_fixed w
  = let w1 := after_fixing state_args state_vars_fixed w in
    match for_each (map_to_list (blk w1)).*1 (toggle_body false) w1 with
    | (w2, Val _) =>
        match for_each (map_to_list (blk w2)).*1 (check_body g) w2 with
        | (w3, Val _) => (w3, Val (produced_flags state_vars_fixed w))
        | (w3, Exc e) => (w3, Exc e)
        end
    | (w2, Exc e) => (w2, Exc e)
    end.
Proof.
  unfold prepare_state, after_fixing, produced_flags.
  destruct state_vars_fixed; reflexivity.
Qed.

Lemma after_fixing_blk state_args state_vars_fixed w :
  blk (after_fixing state_args state_vars_fixed w)
  = (fun b => if state_vars_fixed then b else fix_sub_block state_args b) <$> blk w.
Proof.
  unfold after_fixing. destruct state_vars_fixed; [|done].
  by rewrite map_fmap_id.
Qed.

Lemma after_fixing_log state_args state_vars_fixed w :
  log (after_fixing state_args state_vars_fixed w) = log w
  /\ solver_calls (after_fixing state_args state_vars_fixed w) = solver_calls w.
Proof. unfold after_fixing. by destruct state_vars_fixed. Qed.

Lemma prepared_blk state_args state_vars_fixed w :
  toggle false <$> blk (after_fixing state_args state_vars_fixed w)
  = prepared state_args state_vars_fixed <$> blk w.
Proof. rewrite after_fixing_blk. by rewrite <- map_fmap_compose. Qed.

(** When [prepare_state] returns, every sub-block is fixed and
    deactivated, the flags are those of the first statement, and the check
    has seen zero degrees of freedom everywhere. *)
Lemma prepare_state_val g state_args state_vars_fixed w w' fl :
  prepare_state g state_args state_vars_fixed w = (w', Val fl) ->
  w' = set_blk (prepared state_args state_vars_fixed <$> blk w) w
  /\ fl = produced_flags state_vars_fixed w
  /\ forall dof, g !! "degrees_of_freedom" = Some dof ->
       forall k b, blk w' !! k = Some b -> dof b = 0%Z.
Proof.
  rewrite prepare_state_unfold. cbv zeta.
  set (w1 := after_fixing state_args state_vars_fixed w).
  destruct (for_each _ (toggle_body false) w1) as [w2 [[]|e]] eqn:Hloop; [|discriminate].
  apply toggle_all_val in Hloop.
  destruct (for_each _ (check_body g) w2) as [w3 [[]|e]] eqn:Hchk; [|discriminate].
  pose proof (for_each_check_world _ _ _ _ _ Hchk) as ->.
  intros [= <- <-].
  assert (w2 = set_blk (prepared state_args state_vars_fixed <$> blk w) w) as Hw2.
  { rewrite Hloop. unfold w1. rewrite prepared_blk.
    destruct (after_fixing_log state_args state_vars_fixed w) as [Hl Hs].
    apply world_eq; cbn; done. }
  split; [done|]. split; [done|].
  intros dof Hg k b Hb.
  destruct (for_each_check_val g dof _ w2 Hg Hchk k) as [b' [Hb' Hz]].
  { apply elem_of_keys. eauto. }
  congruence.
Qed.

(** Whatever the outcome, [prepare_state] leaves the logs and the solver
    alone, and every sub-block is either as the first statement left it or
    also deactivated. *)
Lemma prepare_state_any g state_args state_vars_fixed w w' r :
  prepare_state g state_args state_vars_fixed w = (w', r) ->
  log w' = log w /\ solver_calls w' = solver_calls w
  /\ forall k, let b1 := blk (after_fixing state_args state_vars_fixed w) !! k in
               blk w' !! k = b1 \/ blk w' !! k = toggle false <$> b1.
Proof.
  rewrite prepare_state_unfold. cbv zeta.
  destruct (after_fixing_log state_args state_vars_fixed w) as [Hl Hs].
  set (w1 := after_fixing state_args state_vars_fixed w) in *.
  destruct (for_each _ (toggle_body false) w1) as [w2 r2] eqn:Hloop.
  apply (for_each_toggle false _ (NoDup_keys (blk w1))) in Hloop
    as (Hl2 & Hs2 & _ & Hany & _ & _).
  destruct r2 as [[]|e].
  - destruct (for_each _ (check_body g) w2) as [w3 r3] eqn:Hc.
    apply for_each_check_world in Hc as ->.
    destruct r3; intros [= <- <-]; repeat split; try congruence; apply Hany.
  - intros [= <- <-]; repeat split; try congruence; apply Hany.
Qed.

Lemma fix_sub_block_owns state_args b :
  owns_constraint b -> owns_constraint (fix_sub_block state_args b).
Proof. done. Qed.

(** On a block whose sub-blocks own their constraints, [prepare_state]
    fixes and deactivates every sub-block and then returns the flags or
    raises, according to the degrees of freedom it finds. *)
Lemma prepare_state_run g dof state_args state_vars_fixed w :
  g !! "degrees_of_freedom" = Some dof ->
  map_Forall (fun _ b => owns_constraint b) (blk w) ->
  prepare_state g state_args state_vars_fixed w
  = (set_blk (prepared state_args state_vars_fixed <$> blk w) w,
     if decide (map_Forall (fun _ b => dof (prepared state_args state_vars_fixed b) = 0%Z)
                           (blk w))
     then Val (produced_flags state_vars_fixed w)
     else Exc (Exception dof_message)).
Proof.
  intros Hg Hown. rewrite prepare_state_unfold. cbv zeta.
  destruct (after_fixing_log state_args state_vars_fixed w) as [Hl Hs].
  set (w1 := after_fixing state_args state_vars_fixed w) in *.
  rewrite toggle_all_ok.
  2:{ unfold w1. rewrite after_fixing_blk. intros k b Hb.
      rewrite lookup_fmap in Hb. destruct (blk w !! k) as [b0|] eqn:Hb0; [|done].
      cbn in Hb. injection Hb as <-. specialize (Hown k b0 Hb0).
      destruct state_vars_fixed; [done|]. by apply fix_sub_block_owns. }
  assert (set_blk (toggle false <$> blk w1) w1
          = set_blk (prepared state_args state_vars_fixed <$> blk w) w) as ->.
  { unfold w1 at 1. rewrite prepared_blk. apply world_eq; cbn; done. }
  set (w2 := set_blk _ w).
  rewrite (for_each_check_run g dof) by (done || by intros k ?%elem_of_keys).
  destruct (decide (Forall _ _)) as [Hf|Hnf].
  - rewrite decide_True; [done|]. intros k b Hb.
    rewrite Forall_forall in Hf. specialize (Hf k).
    cbn in Hf. rewrite lookup_fmap, Hb in Hf. cbn in Hf.
    assert (k ∈ (map_to_list (blk w2)).*1) as Hin.
    { apply elem_of_keys. cbn. rewrite lookup_fmap, Hb. eauto. }
    specialize (Hf Hin). congruence.
  - rewrite decide_False; [done|]. intros Hall. apply Hnf.
    apply Forall_forall. intros k Hin. apply elem_of_keys in Hin as [b Hb].
    rewrite Hb. cbn in Hb. rewrite lookup_fmap in Hb.
    destruct (blk w !! k) as [b0|] eqn:Hb0; [|done]. cbn in Hb. injection Hb as <-.
    cbn. f_equal. by apply (Hall k).
Qed.

Lemma prepare_state_owns g state_args state_vars_fixed w w' fl :
  prepare_state g state_args state_vars_fixed w = (w', Val fl) ->
  map_Forall (fun _ b => owns_constraint b) (blk w).
Proof.
  rewrite prepare_state_unfold. cbv zeta.
  set (w1 := after_fixing state_args state_vars_fixed w).
  destruct (for_each _ (toggle_body false) w1) as [w2 [[]|e]] eqn:Hloop; [|discriminate].
  intros _. apply toggle_all_owns in Hloop.
  unfold w1 in Hloop. rewrite after_fixing_blk in Hloop.
  intros k b Hb. specialize (Hloop k). cbn in Hloop.
  rewrite lookup_fmap, Hb in Hloop. specialize (Hloop _ eq_refl).
  by destruct state_vars_fixed.
Qed.

(** ** [initialize_state] *)

Lemma count_body_step g a k w :
  match g !! "number_unifxed_variables" with
  | None => count_body g a k w = (w, Exc (NameError "number_unifxed_variables"))
  | Some f =>
      match blk w !! k with
      | None => count_body g a k w = (w, Exc (KeyError k))
      | Some b => count_body g a k w = (w, Val (a + f b)%Z)
      end
  end.
Proof.
  unfold count_body, load_global. rewrite bind_eq.
  destruct (g !! "number_unifxed_variables") as [f|]; [|reflexivity].
  rewrite ret_eq, bind_eq. unfold getitem.
  destruct (blk w !! k) as [b|]; reflexivity.
Qed.

(** The count only reads. *)
Lemma for_fold_count_world g ks a w w' r :
  for_fold ks a (count_body g) w = (w', r) -> w' = w.
Proof.
  revert a w w' r. induction ks as [|k ks IH]; intros a w w' r Hrun.
  - cbn in Hrun. rewrite ret_eq in Hrun. congruence.
  - cbn [for_fold] in Hrun. rewrite bind_eq in Hrun.
    pose proof (count_body_step g a k w) as Hstep.
    destruct (g !! "number_unifxed_variables") as [f|].
    + destruct (blk w !! k) as [b|]; rewrite Hstep in Hrun; [eauto|congruence].
    + rewrite Hstep in Hrun. congruence.
Qed.

(** With the name unbound, the first iteration raises. *)
Lemma for_fold_count_unbound g k ks a w :
  g !! "number_unifxed_variables" = None ->
  for_fold (k :: ks) a (count_body g) w
  = (w, Exc (NameError "number_unifxed_variables")).
Proof.
  intros Hg. cbn [for_fold]. rewrite bind_eq.
  pose proof (count_body_step g a k w) as Hstep. rewrite Hg in Hstep.
  by rewrite Hstep.
Qed.

(** With the name bound, the loop adds up the count of every sub-block. *)
Lemma for_fold_count_bound g f ks a w :
  g !! "number_unifxed_variables" = Some f ->
  (forall k, k ∈ ks -> is_Some (blk w !! k)) ->
  for_fold ks a (count_body g) w = (w, Val (counted f w a ks)).
Proof.
  intros Hg. revert a. induction ks as [|k ks IH]; intros a Hall.
  - reflexivity.
  - cbn [for_fold]. rewrite bind_eq.
    pose proof (count_body_step g a k w) as Hstep. rewrite Hg in Hstep.
    destruct (Hall k) as [b Hb]; [left|]. rewrite Hb in Hstep. rewrite Hstep.
    rewrite IH by (intros; apply Hall; by right).
    unfold counted. cbn [foldl]. by rewrite Hb.
Qed.

Lemma formate_raises w :
  str_getattr "formate" w = (w, Exc (AttributeError "str" "formate")).
Proof. reflexivity. Qed.

(** What is left of [initialize_state] once the count is known. *)
Lemma initialize_state_after_count g solver outlvl w free_vars :
  for_fold (map_to_list (blk w)).*1 0%Z (count_body g) w = (w, Val free_vars) ->
  initialize_state g solver outlvl w
  = (if decide (0 < free_vars)%Z then solved solver w else w,
     Exc (AttributeError "str" "formate")).
Proof.
  intros Hcount. unfold initialize_state.
  rewrite bind_eq, keys_eq, bind_eq, Hcount, bind_eq.
  destruct (decide (0 < free_vars)%Z).
  - unfold try_except, solved. rewrite fmap_eq.
    destruct (solve_indexed_blocks solver w) as [w' [tc|e]]; cbn [fst];
      rewrite ?ret_eq, bind_eq, formate_raises; reflexivity.
  - rewrite ret_eq, bind_eq, formate_raises. reflexivity.
Qed.

(** In the notebook's namespace the count raises on the first sub-block,
    before the solver is reached. *)
Lemma initialize_state_nonempty solver outlvl w :
  blk w <> ∅ ->
  initialize_state notebook_globals solver outlvl w
  = (w, Exc (NameError "number_unifxed_variables")).
Proof.
  intros Hne. unfold initialize_state. rewrite bind_eq, keys_eq, bind_eq.
  destruct (map_to_list (blk w)) as [|[k b] l] eqn:Hl.
  - by apply map_to_list_empty_iff in Hl.
  - cbn [fmap list_fmap fst]. by rewrite for_fold_count_unbound.
Qed.

(** With no sub-block there is nothing to count, and the log statement
    raises. *)
Lemma initialize_state_empty g solver outlvl w :
  blk w = ∅ ->
  initialize_state g solver outlvl w = (w, Exc (AttributeError "str" "formate")).
Proof.
  intros He. rewrite (initialize_state_after_count g solver outlvl w 0).
  - by rewrite decide_False by lia.
  - rewrite He, map_to_list_empty. reflexivity.
Qed.

(** Whatever the namespace, [initialize_state] ends in an exception, and
    the world is either untouched or as the solver call left it. *)
Lemma initialize_state_outcome g solver outlvl w :
  exists e, initialize_state g solver outlvl w = (w, Exc e)
            \/ initialize_state g solver outlvl w = (solved solver w, Exc e).
Proof.
  destruct (for_fold (map_to_list (blk w)).*1 0%Z (count_body g) w) as [w' r] eqn:Hc.
  pose proof (for_fold_count_world _ _ _ _ _ _ Hc) as ->.
  destruct r as [n|e].
  - exists (AttributeError "str" "formate").
    rewrite (initialize_state_after_count _ _ _ _ _ Hc).
    destruct (decide (0 < n)%Z); auto.
  - exists e. left. unfold initialize_state.
    by rewrite bind_eq, keys_eq, bind_eq, Hc.
Qed.

(** ** [unfix_state] *)

Lemma unfix_state_unfold flags outlvl w :
  unfix_state flags outlvl w
  = match for_each (map_to_list (blk w)).*1 (toggle_body true) w with
    | (w1, Val _) =>
        match match flags with
              | Some f => revert_state_vars f w1
              | None => (w1, Val tt)
              end with
        | (w2, Val _) => emit outlvl INFO_HIGH "State Released." w2
        | (w2, Exc e) => (w2, Exc e)
        end
    | (w1, Exc e) => (w1, Exc e)
    end.
Proof. unfold unfix_state. destruct flags; reflexivity. Qed.

(** On a block whose sub-blocks own their constraints and are covered by
    the flags, [unfix_state] gets through. *)
Lemma unfix_state_run flags outlvl w :
  map_Forall (fun _ b => owns_constraint b) (blk w) ->
  flags_cover flags w ->
  unfix_state flags outlvl w
  = (mkWorld (map_imap (fun k b => Some (released flags k b)) (blk w))
             (log w ++ [mkLog outlvl INFO_HIGH "State Released."])
             (solver_calls w),
     Val tt).
Proof.
  intros Hown Hcov. rewrite unfix_state_unfold, toggle_all_ok by done.
  destruct flags as [f|].
  - unfold revert_state_vars. cbn [blk set_blk].
    rewrite decide_True.
    2:{ intros k b Hb. rewrite lookup_fmap in Hb.
        destruct (blk w !! k) as [b0|] eqn:Hb0; [|done].
        by apply (Hcov f eq_refl k b0). }
    unfold emit. cbn. do 2 f_equal.
    apply map_eq. intros k. rewrite !map_lookup_imap, lookup_fmap.
    destruct (blk w !! k) as [b0|]; [|done]. cbn.
    unfold released. by destruct (f !! k).
  - unfold emit. cbn. do 2 f_equal.
    apply map_eq. intros k. rewrite map_lookup_imap, lookup_fmap.
    by destruct (blk w !! k).
Qed.

(** ** What each step does to the fields of a sub-block *)

Lemma toggle_state_var a b n :
  return_state_var_dict (toggle a b) n = return_state_var_dict b n.
Proof.
  unfold toggle. destruct (defined_state b); [done|].
  by destruct (mole_fraction_constraint b).
Qed.

Lemma toggle_fields a b :
  defined_state (toggle a b) = defined_state b
  /\ ideal_gas_eq (toggle a b) = ideal_gas_eq b
  /\ dens_mol (toggle a b) = dens_mol b
  /\ mole_fraction_constraint (toggle a b)
     = (if defined_state b then mole_fraction_constraint b
        else (fun _ => mkConstraint a) <$> mole_fraction_constraint b).
Proof.
  unfold toggle. destruct (defined_state b) eqn:Hd; [by rewrite Hd|].
  destruct (mole_fraction_constraint b) eqn:Hc; cbn; by rewrite ?Hd, ?Hc.
Qed.

Lemma fix_sub_block_state_var state_args b n :
  return_state_var_dict (fix_sub_block state_args b) n
  = fix_one (passed_value state_args n) (return_state_var_dict b n).
Proof.
  destruct n as [|j| |]; cbn; try done.
  destruct (arg_mole_frac_comp state_args) as [xs|]; by destruct j.
Qed.

Lemma revert_sub_block_state_var f b n :
  return_state_var_dict (revert_sub_block f b) n
  = revert_one (recorded f n) (return_state_var_dict b n).
Proof. destruct n as [|j| |]; cbn; try done. by destruct j. Qed.

Lemma recorded_flags_of b n :
  recorded (flags_of b) n = fixed (return_state_var_dict b n).
Proof. destruct n as [|j| |]; cbn; try done. by destruct j. Qed.

Lemma load_solution_state_var s b n :
  fixed (return_state_var_dict b n) = true ->
  return_state_var_dict (load_solution s b) n = return_state_var_dict b n.
Proof.
  destruct n as [|j| |]; cbn; unfold load_one; try (by intros ->).
  destruct j; cbn; by intros ->.
Qed.

Lemma load_one_fixed x v : fixed (load_one x v) = fixed v.
Proof. unfold load_one. by destruct (fixed v) eqn:Hf. Qed.

(** After fixing and reverting with its own flags, a state variable has
    its old status; it keeps its value if it was fixed, and otherwise ends
    at the value it was fixed to. *)
Lemma revert_fix_one passed v :
  revert_one (fixed v) (fix_one passed v)
  = mkVar (if fixed v then value v else default (value v) passed) (fixed v).
Proof.
  unfold revert_one, fix_one. destruct v as [x [|]]; cbn; [done|].
  by destruct passed.
Qed.

Lemma fix_one_fixed passed v : fixed (fix_one passed v) = true.
Proof. unfold fix_one. destruct (fixed v) eqn:Hf; [done|]. by destruct passed. Qed.

Lemma load_solution_fields s b :
  defined_state (load_solution s b) = defined_state b
  /\ ideal_gas_eq (load_solution s b) = ideal_gas_eq b
  /\ mole_fraction_constraint (load_solution s b) = mole_fraction_constraint b
  /\ fixed (dens_mol (load_solution s b)) = fixed (dens_mol b).
Proof. repeat split. apply load_one_fixed. Qed.

Lemma solved_blk solver w :
  blk (solved solver w)
  = map_imap (fun k b => Some (load_solution (solution (solver (blk w)) k) b)) (blk w).
Proof. reflexivity. Qed.

Lemma initialize_state_blk g solver outlvl w w' r :
  initialize_state g solver outlvl w = (w', r) -> solve_step_between w w'.
Proof.
  intros Hrun k.
  destruct (initialize_state_outcome g solver outlvl w) as [e [He|He]];
    rewrite He in Hrun; injection Hrun as <- <-.
  - destruct (blk w !! k) as [b|]; [|done]. exists b. split; [done|by left].
  - rewrite solved_blk, map_lookup_imap.
    destruct (blk w !! k) as [b|]; [|done]. cbn. eexists. split; [done|].
    right. eauto.
Qed.

Lemma solve_step_between_refl w : solve_step_between w w.
Proof. intros k. destruct (blk w !! k) as [b|]; [|done]. exists b. split; [done|by left]. Qed.

Lemma prepared_solve_step g state_args state_vars_fixed w0 w1 fl w2 k :
  prepare_state g state_args state_vars_fixed w0 = (w1, Val fl) ->
  solve_step_between w1 w2 ->
  match blk w0 !! k with
  | Some b => exists b', blk w2 !! k = Some b'
                /\ solve_step_of (prepared state_args state_vars_fixed b) b'
  | None => blk w2 !! k = None
  end.
Proof.
  intros Hprep Hstep. apply prepare_state_val in Hprep as (-> & _ & _).
  pose proof (Hstep k) as H. cbn in H. rewrite lookup_fmap in H.
  by destruct (blk w0 !! k).
Qed.

(** Release with the flags of [prepare_state], straight away or after the
    solve step, gets through. *)
Lemma release_after_prepare_run g state_args state_vars_fixed outlvl w0 w1 fl w2 :
  prepare_state g state_args state_vars_fixed w0 = (w1, Val fl) ->
  solve_step_between w1 w2 ->
  unfix_state fl outlvl w2
  = (mkWorld (map_imap (fun k b => Some (released fl k b)) (blk w2))
             (log w2 ++ [mkLog outlvl INFO_HIGH "State Released."])
             (solver_calls w2),
     Val tt)
  /\ dom (blk w2) = dom (blk w0).
Proof.
  intros Hprep Hstep12.
  pose proof (prepare_state_owns _ _ _ _ _ _ Hprep) as Hown.
  pose proof (fun k => prepared_solve_step _ _ _ _ _ _ _ k Hprep Hstep12) as Hw2.
  apply prepare_state_val in Hprep as (-> & -> & _).
  assert (map_Forall (fun _ b => owns_constraint b) (blk w2)) as Hown2.
  { intros i b Hb. specialize (Hw2 i). destruct (blk w0 !! i) as [bi|] eqn:Hbi;
      [|congruence].
    destruct Hw2 as (b' & Hb' & Hstep). assert (b' = b) as -> by congruence.
    specialize (Hown i bi Hbi). unfold owns_constraint in *.
    unfold prepared in Hstep.
    set (b1 := if state_vars_fixed then bi else fix_sub_block state_args bi) in *.
    assert (defined_state b1 = defined_state bi
            /\ mole_fraction_constraint b1 = mole_fraction_constraint bi) as [Hd1 Hc1]
      by (unfold b1; by destruct state_vars_fixed).
    destruct (toggle_fields false b1) as (Hd & _ & _ & Hc).
    rewrite Hd1, Hc1 in Hc. rewrite Hd1 in Hd.
    destruct Hstep as [->|[s ->]]; cbn; rewrite Hd, Hc;
      intros Hdef; rewrite Hdef; destruct (Hown Hdef) as [c ->]; cbn; eauto. }
  assert (flags_cover (produced_flags state_vars_fixed w0) w2) as Hcov.
  { intros f Hf i b Hb. unfold produced_flags in Hf.
    destruct state_vars_fixed; [done|]. injection Hf as <-.
    rewrite lookup_fmap.
    specialize (Hw2 i). destruct (blk w0 !! i); [eauto|congruence]. }
  split; [by apply unfix_state_run|].
  apply set_eq. intros i. rewrite !elem_of_dom.
  specialize (Hw2 i). destruct (blk w0 !! i) as [bi|].
  - destruct Hw2 as (b' & -> & _). split; eauto.
  - rewrite Hw2. split; intros [? ?]; done.
Qed.

(** The sub-block that [unfix_state] then leaves at index [k]. *)
Lemma release_after_prepare_sub_block g state_args state_vars_fixed outlvl
    w0 w1 fl w2 k b0 :
  prepare_state g state_args state_vars_fixed w0 = (w1, Val fl) ->
  solve_step_between w1 w2 ->
  blk w0 !! k = Some b0 ->
  exists w3 b2,
    unfix_state fl outlvl w2 = (w3, Val tt)
    /\ blk w2 !! k = Some b2
    /\ solve_step_of (prepared state_args state_vars_fixed b0) b2
    /\ blk w3 !! k = Some (released fl k b2)
    /\ dom (blk w3) = dom (blk w0)
    /\ log w3 = log w2 ++ [mkLog outlvl INFO_HIGH "State Released."]
    /\ solver_calls w3 = solver_calls w2.
Proof.
  intros Hprep Hstep12 Hb0.
  destruct (release_after_prepare_run g state_args state_vars_fixed outlvl
              w0 w1 fl w2 Hprep Hstep12) as [Hun Hdom].
  pose proof (prepared_solve_step _ _ _ _ _ _ _ k Hprep Hstep12) as Hk.
  rewrite Hb0 in Hk. destruct Hk as (b2 & Hb2 & Hstep).
  eexists _, b2. split; [exact Hun|]. split; [done|]. split; [done|].
  split; [|split; [|done]].
  - cbn. by rewrite map_lookup_imap, Hb2.
  - cbn. rewrite <- Hdom. apply set_eq. intros i.
    rewrite !elem_of_dom, map_lookup_imap.
    destruct (blk w2 !! i); cbn; split; intros [? ?]; eauto; done.
Qed.

(** The fields of the released sub-block, against the sub-block before
    [prepare_state]. *)
Lemma released_fields state_args state_vars_fixed w0 k b0 b2 n :
  blk w0 !! k = Some b0 ->
  solve_step_of (prepared state_args state_vars_fixed b0) b2 ->
  let b3 := released (produced_flags state_vars_fixed w0) k b2 in
  defined_state b3 = defined_state b0
  /\ ideal_gas_eq b3 = ideal_gas_eq b0
  /\ mole_fraction_constraint b3
     = (if defined_state b0 then mole_fraction_constraint b0
        else (fun _ => mkConstraint true) <$> mole_fraction_constraint b0)
  /\ fixed (dens_mol b3) = fixed (dens_mol b0)
  /\ (state_vars_fixed = false ->
      return_state_var_dict b3 n
      = mkVar (if fixed (return_state_var_dict b0 n)
               then value (return_state_var_dict b0 n)
               else default (value (return_state_var_dict b0 n))
                            (passed_value state_args n))
              (fixed (return_state_var_dict b0 n)))
  /\ (b2 = prepared state_args state_vars_fixed b0 ->
      fixed (return_state_var_dict b3 n) = fixed (return_state_var_dict b0 n)).
Proof.
  intros Hb0 Hstep. cbv zeta. unfold prepared in *.
  set (b1 := if state_vars_fixed then b0 else fix_sub_block state_args b0) in *.
  assert (defined_state b1 = defined_state b0
          /\ ideal_gas_eq b1 = ideal_gas_eq b0
          /\ mole_fraction_constraint b1 = mole_fraction_constraint b0
          /\ dens_mol b1 = dens_mol b0) as (Hd1 & Hi1 & Hc1 & Hm1)
    by (unfold b1; by destruct state_vars_fixed).
  destruct (toggle_fields false b1) as (Hd & Hi & Hm & Hc).
  rewrite Hd1 in Hd, Hc. rewrite Hi1 in Hi. rewrite Hm1 in Hm. rewrite Hc1 in Hc.
  assert (defined_state b2 = defined_state b0
          /\ ideal_gas_eq b2 = ideal_gas_eq b0
          /\ mole_fraction_constraint b2
             = (if defined_state b0 then mole_fraction_constraint b0
                else (fun _ => mkConstraint false) <$> mole_fraction_constraint b0)
          /\ fixed (dens_mol b2) = fixed (dens_mol b0)) as (Hd2 & Hi2 & Hc2 & Hm2).
  { destruct Hstep as [->|[s ->]]; [by rewrite Hm|].
    destruct (load_solution_fields s (toggle false b1))
      as (-> & -> & -> & ->). by rewrite Hm. }
  destruct (toggle_fields true b2) as (Hd3 & Hi3 & Hm3 & Hc3).
  rewrite Hd2 in Hd3, Hc3. rewrite Hi2 in Hi3. rewrite Hc2 in Hc3.
  assert (mole_fraction_constraint (toggle true b2)
          = (if defined_state b0 then mole_fraction_constraint b0
             else (fun _ => mkConstraint true) <$> mole_fraction_constraint b0)) as Hc4.
  { rewrite Hc3. destruct (defined_state b0); [done|].
    by destruct (mole_fraction_constraint b0). }
  assert (forall sf, defined_state (revert_sub_block sf (toggle true b2)) = defined_state b0
            /\ ideal_gas_eq (revert_sub_block sf (toggle true b2)) = ideal_gas_eq b0
            /\ mole_fraction_constraint (revert_sub_block sf (toggle true b2))
               = (if defined_state b0 then mole_fraction_constraint b0
                  else (fun _ => mkConstraint true) <$> mole_fraction_constraint b0)
            /\ fixed (dens_mol (revert_sub_block sf (toggle true b2)))
               = fixed (dens_mol b0)) as Hrev.
  { intros sf. cbn. by rewrite Hd3, Hi3, Hc4, Hm3, Hm2. }
  unfold released, produced_flags.
  destruct state_vars_fixed.
  - repeat split; try done; try (by rewrite ?Hm3).
    intros ->. by rewrite !toggle_state_var.
  - rewrite lookup_fmap, Hb0. cbn [fmap option_fmap option_map].
    destruct (Hrev (flags_of b0)) as (? & ? & ? & ?).
    assert (return_state_var_dict (revert_sub_block (flags_of b0) (toggle true b2)) n
            = mkVar (if fixed (return_state_var_dict b0 n)
                     then value (return_state_var_dict b0 n)
                     else default (value (return_state_var_dict b0 n))
                                  (passed_value state_args n))
                    (fixed (return_state_var_dict b0 n))) as Hvar.
    { rewrite revert_sub_block_state_var, recorded_flags_of, toggle_state_var.
      assert (return_state_var_dict b2 n
              = fix_one (passed_value state_args n) (return_state_var_dict b0 n)) as ->.
      { unfold b1 in Hstep. cbn beta iota in Hstep.
        destruct Hstep as [->|[s ->]].
        - by rewrite toggle_state_var, fix_sub_block_state_var.
        - rewrite load_solution_state_var;
            rewrite toggle_state_var, fix_sub_block_state_var; [done|].
          apply fix_one_fixed. }
      apply revert_fix_one. }
    repeat split; try done. intros _. by rewrite Hvar.
Qed.

(** ** The initialization routine *)

Lemma for_each_toggle_frame a ks k b :
  defined_state b = true ->
  forall w, blk w !! k = Some b ->
            blk (for_each ks (toggle_body a) w).1 !! k = Some b.
Proof.
  intros Hd. induction ks as [|k' ks IH]; intros w Hb; [done|].
  cbn [for_each]. rewrite bind_eq.
  pose proof (toggle_body_step a k' w) as Hstep.
  destruct (blk w !! k') as [b'|] eqn:Hb'; [|by rewrite Hstep].
  destruct (defined_state b') eqn:Hd'; [rewrite Hstep; by apply IH|].
  destruct (mole_fraction_constraint b'); rewrite Hstep; [|done].
  apply IH. cbn. rewrite lookup_insert_ne; [done|]. intros ->. congruence.
Qed.

Lemma prepare_state_frame g state_args state_vars_fixed w k b :
  blk w !! k = Some b -> defined_state b = true ->
  exists b', blk (prepare_state g state_args state_vars_fixed w).1 !! k = Some b'
             /\ same_constraints b b'.
Proof.
  intros Hb Hd.
  destruct (prepare_state g state_args state_vars_fixed w) as [w' r] eqn:Hrun.
  apply prepare_state_any in Hrun as (_ & _ & Hany). specialize (Hany k).
  cbv zeta in Hany. rewrite after_fixing_blk, lookup_fmap, Hb in Hany. cbn in Hany.
  set (b1 := if state_vars_fixed then b else fix_sub_block state_args b) in *.
  assert (same_constraints b b1) as Hsame by (unfold b1; by destruct state_vars_fixed).
  exists b1. split; [|done]. cbn.
  destruct Hany as [->| ->]; [done|].
  rewrite toggle_defined; [done|]. destruct Hsame as [-> _]. done.
Qed.

Lemma unfix_state_frame flags outlvl w k b :
  blk w !! k = Some b -> defined_state b = true ->
  exists b', blk (unfix_state flags outlvl w).1 !! k = Some b' /\ same_constraints b b'.
Proof.
  intros Hb Hd. rewrite unfix_state_unfold.
  pose proof (for_each_toggle_frame true (map_to_list (blk w)).*1 k b Hd w Hb) as Hloop.
  destruct (for_each _ (toggle_body true) w) as [w1 [[]|e]]; cbn [fst] in Hloop;
    [|by exists b].
  destruct flags as [f|]; [|by exists b].
  unfold revert_state_vars.
  destruct (decide _); cbn; rewrite map_lookup_imap, Hloop; cbn;
    destruct (f !! k); eexists; (split; [done|]); done.
Qed.

(** C6: [add_mole_fraction_constraint] creates the constraint only where
    [defined_state] is False; a sub-block whose state is externally
    defined is left exactly as it is by the deactivation loop of
    [prepare_state] and by the reactivation loop of [unfix_state], and
    keeps its configuration and constraints through the whole of
    [prepare_state] and of [unfix_state], whatever their outcome. *)
Theorem externally_defined_state_untouched g state_args state_vars_fixed flags outlvl
    ks w k b self :
  blk w !! k = Some b ->
  defined_state b = true ->
  mole_fraction_constraint (add_mole_fraction_constraint self)
  = (if defined_state self then mole_fraction_constraint self
     else Some (mkConstraint true))
  /\ add_mole_fraction_constraint b = b
  /\ blk (for_each ks deactivate_body w).1 !! k = Some b
  /\ blk (for_each ks activate_body w).1 !! k = Some b
  /\ (exists b', blk (prepare_state g state_args state_vars_fixed w).1 !! k = Some b'
                 /\ same_constraints b b')
  /\ (exists b', blk (unfix_state flags outlvl w).1 !! k = Some b'
                 /\ same_constraints b b').
Proof.
  intros Hb Hd. split; [|split; [|split; [|split; [|split]]]].
  - unfold add_mole_fraction_constraint. by destruct (defined_state self).
  - unfold add_mole_fraction_constraint. by rewrite Hd.
  - apply (for_each_toggle_frame false); done.
  - apply (for_each_toggle_frame true); done.
  - by apply prepare_state_frame.
  - by apply unfix_state_frame.
Qed.

Lemma externally_defined_state_untouched_witness :
  blk sample_world !! 1 = Some (built_sub_block true)
  /\ defined_state (built_sub_block true) = true
  /\ mole_fraction_constraint (built_sub_block true) = None
  /\ blk (for_each [0; 1] deactivate_body sample_world).1 !! 1
     = Some (built_sub_block true).
Proof.
  assert (blk sample_world !! 1 = Some (built_sub_block true)) as Hb by reflexivity.
  assert (defined_state (built_sub_block true) = true) as Hd by reflexivity.
  split; [exact Hb|]. split; [exact Hd|]. split; [reflexivity|].
  apply (externally_defined_state_untouched notebook_globals sample_args false None NOTSET
           [0; 1] sample_world 1 (built_sub_block true) (built_sub_block true) Hb Hd).
Defined.

(** C2: on a block whose sub-blocks own their constraints,
    [prepare_state] fixes and deactivates every sub-block and then either
    returns the flags, every sub-block having zero degrees of freedom, or,
    some sub-block having a nonzero count, raises and logs nothing.  The
    exception passes through the statements of [initialize] that follow
    the call of [prepare_state]: they end with the same exception in the
    same world, so no solver call, no log record and no release follow. *)
Theorem prepare_state_degrees_of_freedom g dof state_args state_vars_fixed hold_state
    outlvl solver w :
  g !! "degrees_of_freedom" = Some dof ->
  map_Forall (fun _ b => owns_constraint b) (blk w) ->
  let w' := set_blk (prepared state_args state_vars_fixed <$> blk w) w in
  (prepare_state g state_args state_vars_fixed w
   = (w', Val (produced_flags state_vars_fixed w))
   /\ forall k b, blk w' !! k = Some b -> dof b = 0%Z)
  \/ (prepare_state g state_args state_vars_fixed w = (w', Exc (Exception dof_message))
      /\ (exists k b, blk w' !! k = Some b /\ dof b <> 0%Z)
      /\ initialize_steps g state_args state_vars_fixed hold_state outlvl solver w
         = (w', Exc (Exception dof_message))).
Proof.
  intros Hg Hown w'.
  pose proof (prepare_state_run g dof state_args state_vars_fixed w Hg Hown) as Hrun.
  fold w' in Hrun.
  destruct (decide (map_Forall _ (blk w))) as [Hall|Hnot].
  - left. split; [done|]. intros k b Hb. cbn in Hb. rewrite lookup_fmap in Hb.
    destruct (blk w !! k) as [b0|] eqn:Hb0; [|done]. cbn in Hb. injection Hb as <-.
    by apply (Hall k).
  - right. split; [done|]. split.
    + apply map_not_Forall in Hnot; [|apply _].
      destruct Hnot as (k & b0 & Hb0 & Hnz). exists k, (prepared state_args state_vars_fixed b0).
      split; [|done]. cbn. by rewrite lookup_fmap, Hb0.
    + unfold initialize_steps. rewrite bind_eq, Hrun. done.
Qed.

Lemma single_world_owns : map_Forall (fun _ b => owns_constraint b) (blk single_world).
Proof.
  intros k b Hb. cbn in Hb. apply lookup_singleton_Some in Hb as [_ <-].
  intros _. eexists. reflexivity.
Defined.

Lemma prepare_state_degrees_of_freedom_witness :
  notebook_globals !! "degrees_of_freedom" = Some degrees_of_freedom
  /\ map_Forall (fun _ b => owns_constraint b) (blk single_world)
  /\ (prepare_state notebook_globals sample_args false single_world).2
     = Val (produced_flags false single_world).
Proof.
  split; [reflexivity|]. split; [exact single_world_owns|].
  destruct (prepare_state_degrees_of_freedom notebook_globals degrees_of_freedom
              sample_args false false NOTSET sample_solver single_world
              eq_refl single_world_owns) as [[H _]|[H _]].
  - rewrite H. reflexivity.
  - vm_compute in H. discriminate H.
Defined.

(** On an over-specified block [prepare_state] raises, and so do the
    statements of [initialize] that follow its call; [initialize] itself
    has raised before it reaches them. *)
Example prepare_state_overspecified :
  (prepare_state notebook_globals no_state_args false overspecified_world).2
  = Exc (Exception dof_message)
  /\ (initialize_steps notebook_globals no_state_args false false NOTSET sample_solver
        overspecified_world).2
     = Exc (Exception dof_message)
  /\ initialize notebook_globals no_state_args false false NOTSET sample_solver
       overspecified_world
     = (overspecified_world, Exc (AttributeError "idaes.logger" "getSolverLogger")).
Proof. repeat split; vm_compute; reflexivity. Qed.

Lemma restore_state_hold flags w : restore_state flags true w = (w, Val flags).
Proof. reflexivity. Qed.

Lemma restore_state_release flags w :
  restore_state flags false w
  = match release_state flags NOTSET w with
    | (w', Val _) => (w', Val None)
    | (w', Exc e) => (w', Exc e)
    end.
Proof.
  unfold restore_state. rewrite bind_eq.
  destruct (release_state flags NOTSET w) as [w' [[]|e]]; reflexivity.
Qed.

(** C3 (amended): when [hold_state] is True, [restore_state] returns the
    flags that [prepare_state] produced and changes nothing; these flags
    are None exactly when [state_vars_fixed] was True, and when it was
    False every state variable is fixed and so stays fixed.  When
    [hold_state] is False, [restore_state] runs [release_state] with the
    flags at once and returns None, and every state variable has the
    fixed/free status it had before [prepare_state]. *)
Theorem restore_state_holds_or_releases g state_args state_vars_fixed w0 w1 fl k b0 n :
  prepare_state g state_args state_vars_fixed w0 = (w1, Val fl) ->
  blk w0 !! k = Some b0 ->
  restore_state fl true w1 = (w1, Val fl)
  /\ (fl = None <-> state_vars_fixed = true)
  /\ (state_vars_fixed = false ->
      exists b1, blk w1 !! k = Some b1 /\ fixed (return_state_var_dict b1 n) = true)
  /\ exists w3 b3,
       restore_state fl false w1 = (w3, Val None)
       /\ release_state fl NOTSET w1 = (w3, Val tt)
       /\ blk w3 !! k = Some b3
       /\ fixed (return_state_var_dict b3 n) = fixed (return_state_var_dict b0 n).
Proof.
  intros Hprep Hb0.
  destruct (release_after_prepare_sub_block g state_args state_vars_fixed NOTSET
              w0 w1 fl w1 k b0 Hprep (solve_step_between_refl w1) Hb0)
    as (w3 & b2 & Hun & Hk & Hstep & Hb3 & _).
  pose proof Hprep as Hval. apply prepare_state_val in Hval as (Hw1 & Hfl & _).
  assert (b2 = prepared state_args state_vars_fixed b0) as Hb2.
  { rewrite Hw1 in Hk. cbn in Hk. rewrite lookup_fmap, Hb0 in Hk. cbn in Hk. congruence. }
  split; [apply restore_state_hold|]. split.
  { rewrite Hfl. unfold produced_flags. destruct state_vars_fixed; split; done. }
  split.
  { intros ->. exists (prepared state_args false b0). split.
    - rewrite Hw1. cbn. by rewrite lookup_fmap, Hb0.
    - unfold prepared. rewrite toggle_state_var, fix_sub_block_state_var.
      apply fix_one_fixed. }
  exists w3, (released fl k b2). split; [|split; [done|split; [done|]]].
  - rewrite restore_state_release. unfold release_state. by rewrite Hun.
  - rewrite Hfl.
    by apply (released_fields state_args state_vars_fixed w0 k b0 b2 n Hb0 Hstep).
Qed.

Lemma restore_state_holds_or_releases_witness :
  prepare_state notebook_globals sample_args false single_world
  = ((prepare_state notebook_globals sample_args false single_world).1,
     Val (produced_flags false single_world))
  /\ blk single_world !! 0 = Some (built_sub_block false)
  /\ restore_state (produced_flags false single_world) true
       (prepare_state notebook_globals sample_args false single_world).1
     = ((prepare_state notebook_globals sample_args false single_world).1,
        Val (produced_flags false single_world)).
Proof.
  assert (prepare_state notebook_globals sample_args false single_world
          = ((prepare_state notebook_globals sample_args false single_world).1,
             Val (produced_flags false single_world))) as Hprep
    by (vm_compute; reflexivity).
  assert (blk single_world !! 0 = Some (built_sub_block false)) as Hb by reflexivity.
  split; [exact Hprep|]. split; [exact Hb|].
  apply (restore_state_holds_or_releases notebook_globals sample_args false single_world
           _ _ 0 (built_sub_block false) key_flow_mol Hprep Hb).
Defined.

(** C3, as stated, fails: with [state_vars_fixed] True, [prepare_state]
    produces no flags, and [restore_state] with [hold_state] True returns
    None. *)
Lemma restore_state_returns_null_flags :
  prepare_state notebook_globals no_state_args true fixed_inlet_world
  = (fixed_inlet_world, Val None)
  /\ restore_state None true fixed_inlet_world = (fixed_inlet_world, Val None)
  /\ ~ exists f, restore_state None true fixed_inlet_world
                 = (fixed_inlet_world, Val (Some f)).
Proof.
  split; [vm_compute; reflexivity|]. split; [reflexivity|].
  intros [f Hf]. rewrite restore_state_hold in Hf. discriminate Hf.
Qed.

(** C1 (amended): release run with the flags of [prepare_state] after
    [prepare_state] and the solve step gets through, keeps the index set,
    and leaves every sub-block with its configuration and [ideal_gas_eq]
    as they were and with the sum of mole fractions active where the state
    is not externally defined.  Every state variable has its old
    fixed/free status; one that was fixed has its old value, one that was
    free has the value [prepare_state] fixed it to, which is the value
    passed in [state_args] when there is one and its old value
    otherwise. *)
Theorem release_after_prepare_and_solve g state_args solver outlvl outlvl'
    w0 w1 fl w2 r k b0 n :
  prepare_state g state_args false w0 = (w1, Val fl) ->
  initialize_state g solver outlvl w1 = (w2, r) ->
  blk w0 !! k = Some b0 ->
  exists w3 b3,
    unfix_state fl outlvl' w2 = (w3, Val tt)
    /\ dom (blk w3) = dom (blk w0)
    /\ blk w3 !! k = Some b3
    /\ fixed (return_state_var_dict b3 n) = fixed (return_state_var_dict b0 n)
    /\ value (return_state_var_dict b3 n)
       = (if fixed (return_state_var_dict b0 n)
          then value (return_state_var_dict b0 n)
          else default (value (return_state_var_dict b0 n))
                       (passed_value state_args n))
    /\ defined_state b3 = defined_state b0
    /\ ideal_gas_eq b3 = ideal_gas_eq b0
    /\ mole_fraction_constraint b3
       = (if defined_state b0 then mole_fraction_constraint b0
          else Some (mkConstraint true))
    /\ fixed (dens_mol b3) = fixed (dens_mol b0).
Proof.
  intros Hprep Hinit Hb0.
  pose proof (prepare_state_owns _ _ _ _ _ _ Hprep k b0 Hb0) as Hown.
  destruct (release_after_prepare_sub_block g state_args false outlvl'
              w0 w1 fl w2 k b0 Hprep (initialize_state_blk _ _ _ _ _ _ Hinit) Hb0)
    as (w3 & b2 & Hun & _ & Hstep & Hb3 & Hdom & _).
  apply prepare_state_val in Hprep as (_ & -> & _).
  destruct (released_fields state_args false w0 k b0 b2 n Hb0 Hstep)
    as (Hd & Hi & Hc & Hm & Hvar & _).
  specialize (Hvar eq_refl).
  exists w3, (released (produced_flags false w0) k b2).
  split; [done|]. split; [done|]. split; [done|].
  rewrite Hvar. cbn [fixed value].
  repeat split; try done.
  rewrite Hc. destruct (defined_state b0) eqn:Hdef; [done|].
  by destruct (Hown Hdef) as [c ->].
Qed.

Lemma release_after_prepare_and_solve_witness :
  prepare_state notebook_globals sample_args false single_world
  = ((prepare_state notebook_globals sample_args false single_world).1,
     Val (produced_flags false single_world))
  /\ blk single_world !! 0 = Some (built_sub_block false)
  /\ exists w3 b3,
       unfix_state (produced_flags false single_world) NOTSET
         (initialize_state notebook_globals sample_solver NOTSET
            (prepare_state notebook_globals sample_args false single_world).1).1
       = (w3, Val tt)
       /\ blk w3 !! 0 = Some b3
       /\ fixed (pressure b3) = false
       /\ value (pressure b3) = 350000%Q.
Proof.
  assert (prepare_state notebook_globals sample_args false single_world
          = ((prepare_state notebook_globals sample_args false single_world).1,
             Val (produced_flags false single_world))) as Hprep
    by (vm_compute; reflexivity).
  assert (blk single_world !! 0 = Some (built_sub_block false)) as Hb by reflexivity.
  split; [exact Hprep|]. split; [exact Hb|].
  destruct (release_after_prepare_and_solve notebook_globals sample_args sample_solver
              NOTSET NOTSET single_world _ _ _ _ 0 (built_sub_block false) key_pressure
              Hprep (surjective_pairing _) Hb)
    as (w3 & b3 & Hun & _ & Hb3 & Hf & Hv & _).
  exists w3, b3. split; [exact Hun|]. split; [exact Hb3|]. split; [exact Hf|exact Hv].
Defined.

(** C1, as stated, fails: the flow that [state_args] sets is not taken
    back by release, and a sum of mole fractions that was inactive before
    [prepare_state] is active after release; either way the block after
    the round trip is not the block before it. *)
Lemma round_trip_changes_block :
  (round_trip notebook_globals sample_args sample_solver NOTSET single_world).2 = Val tt
  /\ flow_mol <$> blk single_world !! 0 = Some (mkVar 1%Q false)
  /\ flow_mol <$> blk (round_trip notebook_globals sample_args sample_solver NOTSET
                         single_world).1 !! 0
     = Some (mkVar 100%Q false)
  /\ blk (round_trip notebook_globals sample_args sample_solver NOTSET single_world).1
     <> blk single_world
  /\ (round_trip notebook_globals no_state_args sample_solver NOTSET deactivated_world).2
     = Val tt
  /\ mole_fraction_constraint <$> blk deactivated_world !! 0
     = Some (Some (mkConstraint false))
  /\ mole_fraction_constraint
       <$> blk (round_trip notebook_globals no_state_args sample_solver NOTSET
                  deactivated_world).1 !! 0
     = Some (Some (mkConstraint true))
  /\ blk (round_trip notebook_globals no_state_args sample_solver NOTSET
            deactivated_world).1
     <> blk deactivated_world.
Proof.
  split; [vm_compute; reflexivity|]. split; [reflexivity|].
  split; [vm_compute; reflexivity|]. split.
  { intros H. apply (f_equal (fun m => flow_mol <$> m !! 0)) in H.
    vm_compute in H. discriminate H. }
  split; [vm_compute; reflexivity|]. split; [reflexivity|].
  split; [vm_compute; reflexivity|].
  intros H. apply (f_equal (fun m => mole_fraction_constraint <$> m !! 0)) in H.
  vm_compute in H. discriminate H.
Qed.

(** Were the misspelled name bound to a counting function, the solver
    would be called exactly when the count is positive and an exception
    of the solver would be swallowed; the log statement would still
    raise. *)
Lemma initialize_state_count_bound g f solver outlvl w :
  g !! "number_unifxed_variables" = Some f ->
  initialize_state g solver outlvl w
  = (if decide (0 < counted f w 0 (map_to_list (blk w)).*1)%Z
     then solved solver w else w,
     Exc (AttributeError "str" "formate")).
Proof.
  intros Hg. apply initialize_state_after_count.
  apply for_fold_count_bound; [done|]. by intros k ?%elem_of_keys.
Qed.

(** In the notebook's namespace [initialize_state] ends in one of two
    exceptions and leaves the world as it was. *)
Lemma initialize_state_notebook solver outlvl w :
  exists e,
    initialize_state notebook_globals solver outlvl w = (w, Exc e)
    /\ (e = NameError "number_unifxed_variables" \/ e = AttributeError "str" "formate").
Proof.
  destruct (decide (blk w = ∅)) as [He|Hne].
  - eexists. split; [by apply initialize_state_empty|]. by right.
  - eexists. split; [by apply initialize_state_nonempty|]. by left.
Qed.

(** C4: in the notebook's namespace [initialize_state] never completes: on
    a block with at least one sub-block the misspelled
    [number_unifxed_variables] raises NameError in the counting loop,
    outside the [try]; on an empty block the misspelled [formate] raises
    AttributeError in the log statement.  Either exception reaches the
    caller, whatever the solver does, and nothing is logged. *)
Theorem initialize_state_always_raises solver outlvl w :
  exists e,
    initialize_state notebook_globals solver outlvl w = (w, Exc e)
    /\ (e = NameError "number_unifxed_variables" \/ e = AttributeError "str" "formate")
    /\ initialize_state notebook_globals failing_solver outlvl single_world
       = (single_world, Exc (NameError "number_unifxed_variables")).
Proof.
  destruct (initialize_state_notebook solver outlvl w) as (e & He & Hor).
  exists e. split; [done|]. split; [done|].
  vm_compute. reflexivity.
Qed.

(** C5: in the notebook's namespace [initialize_state] never enters
    [solve_indexed_blocks], whatever the block: on the prepared sample
    block, whose one sub-block has a free variable, it raises NameError
    at the first count and the solver is not called. *)
Theorem initialize_state_never_solves solver outlvl w :
  solver_calls (initialize_state notebook_globals solver outlvl w).1 = solver_calls w
  /\ blk (initialize_state notebook_globals solver outlvl w).1 = blk w
  /\ (0 < counted number_unfixed_variables
             (prepare_state notebook_globals sample_args false single_world).1 0
             (map_to_list
                (blk (prepare_state notebook_globals sample_args false single_world).1)).*1)%Z
  /\ initialize_state notebook_globals solver outlvl
       (prepare_state notebook_globals sample_args false single_world).1
     = ((prepare_state notebook_globals sample_args false single_world).1,
        Exc (NameError "number_unifxed_variables")).
Proof.
  destruct (initialize_state_notebook solver outlvl w) as (e & -> & _).
  split; [done|]. split; [done|]. split; [by vm_compute|].
  apply initialize_state_nonempty. intros H.
  apply (f_equal (fun m => defined_state <$> m !! 0)) in H.
  vm_compute in H. discriminate H.
Qed.

(** The module [idaeslog] provides [getInitLogger] and does not provide
    [getSolverLogger]. *)
Lemma idaeslog_getInitLogger w : idaeslog_getattr "getInitLogger" w = (w, Val tt).
Proof. reflexivity. Qed.

Lemma idaeslog_getSolverLogger w :
  idaeslog_getattr "getSolverLogger" w
  = (w, Exc (AttributeError "idaes.logger" "getSolverLogger")).
Proof. reflexivity. Qed.

(** In the notebook's namespace the statements of [initialize] from the
    call of [prepare_state] on end in the exception of [prepare_state] or
    in that of [initialize_state], before [restore_state] is reached. *)
Lemma initialize_steps_raise state_args state_vars_fixed hold_state outlvl solver w :
  exists w' e,
    initialize_steps notebook_globals state_args state_vars_fixed hold_state outlvl
      solver w
    = (w', Exc e).
Proof.
  unfold initialize_steps. rewrite bind_eq.
  destruct (prepare_state notebook_globals state_args state_vars_fixed w)
    as [w1 [fl|e]]; [|eauto].
  rewrite bind_eq.
  destruct (initialize_state_notebook solver outlvl w1) as (e & -> & _). eauto.
Qed.

(** C9: [initialize] never returns, with either value of [hold_state], in
    every namespace and on every block: its second statement asks the
    module [idaeslog] for [getSolverLogger], which the module does not
    provide (its name is [getSolveLogger]), and raises AttributeError
    before [prepare_state] is reached; the block is left as it was and
    nothing is logged.  In the notebook's namespace the statements after
    it would not return either. *)
Theorem initialize_never_returns g state_args state_vars_fixed hold_state outlvl solver w :
  initialize g state_args state_vars_fixed hold_state outlvl solver w
  = (w, Exc (AttributeError "idaes.logger" "getSolverLogger"))
  /\ exists w' e,
       initialize_steps notebook_globals state_args state_vars_fixed hold_state outlvl
         solver w
       = (w', Exc e).
Proof.
  split; [|apply initialize_steps_raise].
  unfold initialize.
  rewrite bind_eq, idaeslog_getInitLogger, bind_eq, idaeslog_getSolverLogger.
  reflexivity.
Qed.

Lemma revert_fix_one_free v : revert_one (fixed v) (fix_one None v) = v.
Proof. by destruct v as [x [|]]. Qed.

Lemma revert_fix_sub_block b :
  (defined_state b = false -> mole_fraction_constraint b = Some (mkConstraint true)) ->
  revert_sub_block (flags_of b) (toggle true (toggle false (fix_sub_block no_state_args b)))
  = b.
Proof.
  intros Hc. destruct b as [d f [m1 m2 m3 m4 m5] p t dm ig c]. cbn in Hc.
  unfold toggle. cbn -[revert_one fix_one]. destruct d; cbn -[revert_one fix_one].
  - unfold revert_sub_block, flags_of, fix_sub_block, mapc, map2c.
    cbn -[revert_one fix_one]. by rewrite !revert_fix_one_free.
  - rewrite Hc by done.
    unfold revert_sub_block, flags_of, fix_sub_block, mapc, map2c,
      set_mole_fraction_constraint.
    cbn -[revert_one fix_one]. by rewrite !revert_fix_one_free.
Qed.

(** When no value is passed in [state_args] and the sum of mole fractions
    was active wherever it exists, the round trip in the notebook's
    namespace gives the block back as it was. *)
Lemma round_trip_without_state_args solver outlvl w fl :
  (prepare_state notebook_globals no_state_args false w).2 = Val fl ->
  (forall k b, blk w !! k = Some b -> defined_state b = false ->
               mole_fraction_constraint b = Some (mkConstraint true)) ->
  (round_trip notebook_globals no_state_args solver outlvl w).2 = Val tt
  /\ blk (round_trip notebook_globals no_state_args solver outlvl w).1 = blk w.
Proof.
  intros Hprep Hact. unfold round_trip.
  destruct (prepare_state notebook_globals no_state_args false w) as [w1 r] eqn:Hrun.
  cbn in Hprep. subst r.
  destruct (initialize_state_notebook solver outlvl w1) as (e & -> & _). cbn [fst].
  destruct (release_after_prepare_run notebook_globals no_state_args false outlvl
              w w1 fl w1 Hrun (solve_step_between_refl w1)) as [-> _].
  split; [done|]. cbn [fst blk].
  apply prepare_state_val in Hrun as (-> & -> & _). cbn [blk set_blk].
  apply map_eq. intros k. rewrite map_lookup_imap, lookup_fmap.
  destruct (blk w !! k) as [b|] eqn:Hb; [|done]. cbn. f_equal.
  unfold released, produced_flags. rewrite lookup_fmap, Hb. cbn.
  apply revert_fix_sub_block. by apply (Hact k).
Qed.

(** ** Property expressions *)

Section Enthalpy.

Local Open Scope Q_scope.

Lemma enth_poly_at_ref params T j :
  T == temperature_ref params ->
  (getc (cp_mol_ig_comp_coeff_D params) j / 4) * (T ^ 4 - temperature_ref params ^ 4) == 0
  /\ (getc (cp_mol_ig_comp_coeff_C params) j / 3) * (T ^ 3 - temperature_ref params ^ 3) == 0
  /\ (getc (cp_mol_ig_comp_coeff_B params) j / 2) * (T ^ 2 - temperature_ref params ^ 2) == 0
  /\ getc (cp_mol_ig_comp_coeff_A params) j * (T - temperature_ref params) == 0.
Proof. intros HT. rewrite HT. repeat split; field. Qed.

Lemma enth_term_at_ref params T j :
  T == temperature_ref params ->
  enth_term params T j == getc (enth_mol_form_vap_comp_ref params) j.
Proof.
  intros HT. unfold enth_term, enth_poly. cbv zeta.
  destruct (enth_poly_at_ref params T j HT) as (HD & HC & HB & HA).
  setoid_rewrite HD. setoid_rewrite HC. setoid_rewrite HB. setoid_rewrite HA. ring.
Qed.

Lemma py_sum_five a b c d e : py_sum [a; b; c; d; e] == a + b + c + d + e.
Proof. unfold py_sum. cbn. ring. Qed.

(** C7: at [T == Tr] each of the four polynomial difference terms of
    component [j] is zero, the factor of [mole_frac_comp[j]] in [enth_rule]
    is the reference heat of formation of [j], and the mixture [enth_mol]
    is the mole-fraction-weighted sum of the reference heats of
    formation. *)
Theorem enth_mol_at_reference_temperature params b j :
  value (temperature b) == temperature_ref params ->
  let T := value (temperature b) in
  let Tr := temperature_ref params in
  (getc (cp_mol_ig_comp_coeff_A params) j * (T - Tr) == 0
   /\ (getc (cp_mol_ig_comp_coeff_B params) j / 2) * (T ^ 2 - Tr ^ 2) == 0
   /\ (getc (cp_mol_ig_comp_coeff_C params) j / 3) * (T ^ 3 - Tr ^ 3) == 0
   /\ (getc (cp_mol_ig_comp_coeff_D params) j / 4) * (T ^ 4 - Tr ^ 4) == 0)
  /\ enth_poly params T j == 0
  /\ enth_term params T j == getc (enth_mol_form_vap_comp_ref params) j
  /\ enth_rule params b
     == py_sum ((fun i => value (getc (mole_frac_comp b) i)
                          * getc (enth_mol_form_vap_comp_ref params) i)
                <$> component_list).
Proof.
  intros HT. cbv zeta.
  destruct (enth_poly_at_ref params _ j HT) as (HD & HC & HB & HA).
  split; [by repeat split|]. split.
  { unfold enth_poly. cbv zeta.
    setoid_rewrite HD. setoid_rewrite HC. setoid_rewrite HB. setoid_rewrite HA. ring. }
  split; [by apply enth_term_at_ref|].
  unfold enth_rule, component_list. cbn [fmap list_fmap].
  rewrite !py_sum_five.
  rewrite !(enth_term_at_ref params (value (temperature b))) by done. ring.
Qed.

Lemma enth_mol_at_reference_temperature_witness :
  value (temperature (built_sub_block false)) == temperature_ref default_params
  /\ enth_rule default_params (built_sub_block false)
     == py_sum ((fun i => value (getc (mole_frac_comp (built_sub_block false)) i)
                          * getc (enth_mol_form_vap_comp_ref default_params) i)
                <$> component_list).
Proof.
  split; [reflexivity|].
  apply (enth_mol_at_reference_temperature default_params (built_sub_block false) benzene).
  reflexivity.
Defined.

End Enthalpy.

Section Equilibrium.

Local Open Scope Q_scope.
Import Reaction.

Lemma equilibrium_constraint_holds rb sb :
  holds rb sb define_equilibrium_expression
  <-> k_eq rb * value (getc (mole_frac_comp sb) benzene) * value (pressure sb)
      == value (getc (mole_frac_comp sb) diphenyl)
         * value (getc (mole_frac_comp sb) hydrogen) * value (pressure sb) ^ 2.
Proof.
  unfold holds. cbn. split.
  - intros (x & y & [= <-] & [= <-] & H). exact H.
  - intros H. eauto.
Qed.





(** C10: [_HDAReactionBlock.initialize] hands one record to the init
    logger and returns; the reaction blocks, the state blocks they refer
    to and the number of solver calls are what they were. *)
Theorem reaction_initialize_only_logs outlvl kwargs w :
  initialize outlvl kwargs w
  = (mkRWorld (reactions w)
       (mkWorld (blk (states w))
                (log (states w) ++ [mkLog outlvl INFO "Initialization complete."])
                (solver_calls (states w))),
     Val tt)
  /\ reactions (initialize outlvl kwargs w).1 = reactions w
  /\ blk (states (initialize outlvl kwargs w).1) = blk (states w)
  /\ solver_calls (states (initialize outlvl kwargs w).1) = solver_calls (states w).
Proof. repeat split. Qed.

End Equilibrium.

(** * Further properties of the initialization routine *)

Lemma all_variables_toggle a b : all_variables (toggle a b) = all_variables b.
Proof.
  unfold toggle. destruct (defined_state b); [done|].
  by destruct (mole_fraction_constraint b).
Qed.

Lemma toggle_keeps a b :
  defined_state (toggle a b) = defined_state b
  /\ ideal_gas_eq (toggle a b) = ideal_gas_eq b
  /\ all_variables (toggle a b) = all_variables b.
Proof.
  destruct (toggle_fields a b) as (Hd & Hi & _ & _).
  split; [done|]. split; [done|]. apply all_variables_toggle.
Qed.

(** Whatever its outcome, a loop over the sum of mole fractions leaves
    every variable, [ideal_gas_eq] and the configuration of every
    sub-block alone. *)
Lemma toggle_loop_keeps a w w' r k :
  for_each (map_to_list (blk w)).*1 (toggle_body a) w = (w', r) ->
  defined_state <$> blk w' !! k = defined_state <$> blk w !! k
  /\ ideal_gas_eq <$> blk w' !! k = ideal_gas_eq <$> blk w !! k
  /\ all_variables <$> blk w' !! k = all_variables <$> blk w !! k.
Proof.
  intros Hrun.
  apply (for_each_toggle a _ (NoDup_keys (blk w))) in Hrun as (_ & _ & _ & Hany & _).
  destruct (Hany k) as [-> | ->]; [done|].
  destruct (blk w !! k) as [b|]; [|done]. cbn.
  destruct (toggle_keeps a b) as (-> & -> & ->). done.
Qed.

(** X1: when the caller says the state variables are fixed already,
    [prepare_state] changes no variable of any sub-block, nor
    [ideal_gas_eq], the configuration, the log or the solver count,
    whether it returns or raises. *)
Theorem prepare_state_fixed_keeps_variables g state_args w k :
  let w' := (prepare_state g state_args true w).1 in
  all_variables <$> blk w' !! k = all_variables <$> blk w !! k
  /\ ideal_gas_eq <$> blk w' !! k = ideal_gas_eq <$> blk w !! k
  /\ defined_state <$> blk w' !! k = defined_state <$> blk w !! k
  /\ log w' = log w
  /\ solver_calls w' = solver_calls w.
Proof.
  cbv zeta.
  destruct (prepare_state g state_args true w) as [w' r] eqn:Hrun. cbn [fst].
  apply prepare_state_any in Hrun as (Hl & Hs & Hany). specialize (Hany k).
  cbv zeta in Hany. unfold after_fixing in Hany.
  assert (all_variables <$> blk w' !! k = all_variables <$> blk w !! k
          /\ ideal_gas_eq <$> blk w' !! k = ideal_gas_eq <$> blk w !! k
          /\ defined_state <$> blk w' !! k = defined_state <$> blk w !! k) as H.
  { destruct Hany as [-> | ->]; [done|].
    destruct (blk w !! k) as [b|]; [|done]. cbn.
    destruct (toggle_keeps false b) as (-> & -> & ->). done. }
  destruct H as (? & ? & ?). done.
Qed.

(** X2: release without flags changes no variable of any sub-block, nor
    [ideal_gas_eq] or the configuration, whether it returns or raises. *)
Theorem unfix_state_without_flags_keeps_variables outlvl w k :
  let w' := (unfix_state None outlvl w).1 in
  all_variables <$> blk w' !! k = all_variables <$> blk w !! k
  /\ ideal_gas_eq <$> blk w' !! k = ideal_gas_eq <$> blk w !! k
  /\ defined_state <$> blk w' !! k = defined_state <$> blk w !! k.
Proof.
  cbv zeta. rewrite unfix_state_unfold.
  destruct (for_each _ (toggle_body true) w) as [w1 r1] eqn:Hloop.
  destruct (toggle_loop_keeps true w w1 r1 k Hloop) as (Hd & Hi & Hv).
  destruct r1 as [[]|e]; cbn; done.
Qed.

(** When release returns, the sub-blocks owned their constraints and the
    flags covered them. *)
Lemma unfix_state_val_inv flags outlvl w w' :
  unfix_state flags outlvl w = (w', Val tt) ->
  map_Forall (fun _ b => owns_constraint b) (blk w) /\ flags_cover flags w.
Proof.
  rewrite unfix_state_unfold.
  destruct (for_each _ (toggle_body true) w) as [w1 [[]|e]] eqn:Hloop; [|discriminate].
  pose proof (toggle_all_owns _ _ _ Hloop) as Hown.
  apply toggle_all_val in Hloop as ->.
  intros Hrun. split; [done|]. intros f ->.
  unfold revert_state_vars in Hrun. cbn [blk set_blk] in Hrun.
  destruct (decide _) as [Hall|]; [|discriminate].
  intros k b Hb. apply (Hall k (toggle true b)). by rewrite lookup_fmap, Hb.
Qed.

(** X3: when [prepare_state] returns, every sub-block whose state is not
    externally defined has its sum of mole fractions, and it is
    inactive. *)
Theorem prepare_state_deactivates g state_args state_vars_fixed w w' fl k b :
  prepare_state g state_args state_vars_fixed w = (w', Val fl) ->
  blk w' !! k = Some b ->
  defined_state b = false ->
  mole_fraction_constraint b = Some (mkConstraint false).
Proof.
  intros Hprep Hb Hd.
  pose proof (prepare_state_owns _ _ _ _ _ _ Hprep) as Hown.
  apply prepare_state_val in Hprep as (-> & _ & _).
  cbn in Hb. rewrite lookup_fmap in Hb.
  destruct (blk w !! k) as [b0|] eqn:Hb0; [|done]. cbn in Hb. injection Hb as <-.
  specialize (Hown k b0 Hb0). unfold prepared in *.
  set (b1 := if state_vars_fixed then b0 else fix_sub_block state_args b0) in *.
  assert (defined_state b1 = defined_state b0
          /\ mole_fraction_constraint b1 = mole_fraction_constraint b0) as [Hd1 Hc1]
    by (unfold b1; by destruct state_vars_fixed).
  destruct (toggle_fields false b1) as (Hdt & _ & _ & Hc).
  rewrite Hdt, Hd1 in Hd. rewrite Hc, Hd1, Hd, Hc1.
  by destruct (Hown Hd) as [c ->].
Qed.

Lemma prepare_state_deactivates_witness :
  prepare_state notebook_globals sample_args false sample_world
  = ((prepare_state notebook_globals sample_args false sample_world).1,
     Val (produced_flags false sample_world))
  /\ mole_fraction_constraint
       <$> blk (prepare_state notebook_globals sample_args false sample_world).1 !! 0
     = Some (Some (mkConstraint false)).
Proof.
  assert (prepare_state notebook_globals sample_args false sample_world
          = ((prepare_state notebook_globals sample_args false sample_world).1,
             Val (produced_flags false sample_world))) as Hprep
    by (vm_compute; reflexivity).
  split; [exact Hprep|].
  destruct (blk (prepare_state notebook_globals sample_args false sample_world).1 !! 0)
    as [b|] eqn:Hb; [|vm_compute in Hb; discriminate Hb].
  cbn. f_equal.
  apply (prepare_state_deactivates notebook_globals sample_args false sample_world
           _ _ 0 b Hprep Hb).
  vm_compute in Hb. injection Hb as <-. reflexivity.
Defined.

(** X4: when release returns, with whatever flags, every sub-block whose
    state is not externally defined has its sum of mole fractions, and it
    is active; exactly one record, "State Released.", was logged and the
    solver was not called. *)
Theorem unfix_state_activates flags outlvl w w' k b :
  unfix_state flags outlvl w = (w', Val tt) ->
  blk w' !! k = Some b ->
  defined_state b = false ->
  mole_fraction_constraint b = Some (mkConstraint true)
  /\ log w' = log w ++ [mkLog outlvl INFO_HIGH "State Released."]
  /\ solver_calls w' = solver_calls w.
Proof.
  intros Hrun Hb Hd.
  destruct (unfix_state_val_inv _ _ _ _ Hrun) as [Hown Hcov].
  rewrite (unfix_state_run flags outlvl w Hown Hcov) in Hrun.
  injection Hrun as <-. cbn in Hb |- *. split; [|done].
  rewrite map_lookup_imap in Hb.
  destruct (blk w !! k) as [b0|] eqn:Hb0; [|done]. cbn in Hb. injection Hb as <-.
  specialize (Hown k b0 Hb0).
  destruct (toggle_fields true b0) as (Hdt & _ & _ & Hc).
  assert (defined_state (released flags k b0) = defined_state b0
          /\ mole_fraction_constraint (released flags k b0)
             = mole_fraction_constraint (toggle true b0)) as [Hdr Hcr].
  { unfold released. destruct flags as [f|]; [|done]. by destruct (f !! k). }
  rewrite Hdr in Hd. rewrite Hcr, Hc, Hd. by destruct (Hown Hd) as [c ->].
Qed.

Lemma unfix_state_activates_witness :
  unfix_state None NOTSET deactivated_world
  = ((unfix_state None NOTSET deactivated_world).1, Val tt)
  /\ mole_fraction_constraint <$> blk (unfix_state None NOTSET deactivated_world).1 !! 0
     = Some (Some (mkConstraint true)).
Proof.
  assert (unfix_state None NOTSET deactivated_world
          = ((unfix_state None NOTSET deactivated_world).1, Val tt)) as Hrun
    by (vm_compute; reflexivity).
  split; [exact Hrun|].
  destruct (blk (unfix_state None NOTSET deactivated_world).1 !! 0)
    as [b|] eqn:Hb; [|vm_compute in Hb; discriminate Hb].
  cbn. f_equal.
  apply (unfix_state_activates None NOTSET deactivated_world _ 0 b Hrun Hb).
  vm_compute in Hb. injection Hb as <-. reflexivity.
Defined.

(** Over keys that are in the block, the only exception of a loop over
    the sum of mole fractions is the missing attribute. *)
Lemma for_each_toggle_exc a ks :
  forall w w' e,
    (forall k, k ∈ ks -> is_Some (blk w !! k)) ->
    for_each ks (toggle_body a) w = (w', Exc e) -> e = missing_constraint.
Proof.
  induction ks as [|k ks IH]; intros w w' e Hin Hrun; [discriminate|].
  cbn [for_each] in Hrun. rewrite bind_eq in Hrun.
  pose proof (toggle_body_step a k w) as Hstep.
  destruct (Hin k) as [b Hb]; [left|]. rewrite Hb in Hstep.
  destruct (defined_state b).
  - rewrite Hstep in Hrun. eapply IH; [|done]. intros; apply Hin; by right.
  - destruct (mole_fraction_constraint b); rewrite Hstep in Hrun;
      [|unfold missing_constraint; congruence].
    eapply IH; [|done]. intros k' Hk'. cbn.
    destruct (decide (k' = k)) as [->|Hne].
    + rewrite lookup_insert_eq. eauto.
    + rewrite lookup_insert_ne by done. apply Hin. by right.
Qed.

Lemma toggle_all_exc a w w' e :
  for_each (map_to_list (blk w)).*1 (toggle_body a) w = (w', Exc e) ->
  e = missing_constraint.
Proof. apply for_each_toggle_exc. by intros k ?%elem_of_keys. Qed.

(** The check never raises the missing attribute. *)
Lemma for_each_check_exc g ks w w' e :
  for_each ks (check_body g) w = (w', Exc e) -> e <> missing_constraint.
Proof.
  revert w w' e. induction ks as [|k ks IH]; intros w w' e Hrun; [discriminate|].
  cbn [for_each] in Hrun. rewrite bind_eq in Hrun.
  pose proof (check_body_step g k w) as Hstep.
  destruct (g !! "degrees_of_freedom") as [dof|].
  - destruct (blk w !! k) as [b|]; rewrite Hstep in Hrun.
    + destruct (decide (dof b = 0%Z)); [eauto|]. injection Hrun as <- <-. discriminate.
    + injection Hrun as <- <-. discriminate.
  - rewrite Hstep in Hrun. injection Hrun as <- <-. discriminate.
Qed.

Lemma after_fixing_owns state_args state_vars_fixed w :
  map_Forall (fun _ b => owns_constraint b) (blk (after_fixing state_args state_vars_fixed w))
  <-> map_Forall (fun _ b => owns_constraint b) (blk w).
Proof.
  rewrite after_fixing_blk. split; intros H k b Hb.
  - specialize (H k (if state_vars_fixed then b else fix_sub_block state_args b)).
    rewrite lookup_fmap, Hb in H. specialize (H eq_refl). by destruct state_vars_fixed.
  - rewrite lookup_fmap in Hb. destruct (blk w !! k) as [b0|] eqn:Hb0; [|done].
    cbn in Hb. injection Hb as <-. specialize (H k b0 Hb0). by destruct state_vars_fixed.
Qed.

(** X5: [prepare_state] and release raise AttributeError for the missing
    [mole_fraction_constraint] exactly when some sub-block whose state is
    not externally defined lacks it. *)
Theorem missing_constraint_raises g state_args state_vars_fixed flags outlvl w :
  ((exists w', prepare_state g state_args state_vars_fixed w = (w', Exc missing_constraint))
   <-> ~ map_Forall (fun _ b => owns_constraint b) (blk w))
  /\ ((exists w', unfix_state flags outlvl w = (w', Exc missing_constraint))
      <-> ~ map_Forall (fun _ b => owns_constraint b) (blk w)).
Proof.
  split.
  - rewrite prepare_state_unfold. cbv zeta.
    set (w1 := after_fixing state_args state_vars_fixed w).
    destruct (for_each _ (toggle_body false) w1) as [w2 [[]|e]] eqn:Hloop.
    + pose proof (toggle_all_owns _ _ _ Hloop) as Hown.
      apply after_fixing_owns in Hown. split; [|done].
      intros [w' Hrun].
      destruct (for_each _ (check_body g) w2) as [w3 [[]|e]] eqn:Hchk; [discriminate|].
      injection Hrun as _ ->. by apply for_each_check_exc in Hchk.
    + pose proof (toggle_all_exc _ _ _ _ Hloop) as ->. split; [|eauto].
      intros _ Hown. apply (after_fixing_owns state_args state_vars_fixed) in Hown.
      rewrite (toggle_all_ok false w1 Hown) in Hloop. discriminate.
  - rewrite unfix_state_unfold.
    destruct (for_each _ (toggle_body true) w) as [w1 [[]|e]] eqn:Hloop.
    + pose proof (toggle_all_owns _ _ _ Hloop) as Hown. split; [|done].
      intros [w' Hrun]. destruct flags as [f|].
      * unfold revert_state_vars in Hrun.
        destruct (decide _); cbn in Hrun; discriminate.
      * discriminate.
    + pose proof (toggle_all_exc _ _ _ _ Hloop) as ->. split; [|eauto].
      intros _ Hown. rewrite (toggle_all_ok true w Hown) in Hloop. discriminate.
Qed.

(** X6: when release raises for the missing attribute, it has not reached
    [revert_state_vars]: no variable has changed and nothing was
    logged. *)
Theorem unfix_state_missing_constraint_keeps_variables flags outlvl w w' k :
  unfix_state flags outlvl w = (w', Exc missing_constraint) ->
  all_variables <$> blk w' !! k = all_variables <$> blk w !! k
  /\ log w' = log w.
Proof.
  rewrite unfix_state_unfold.
  destruct (for_each _ (toggle_body true) w) as [w1 r1] eqn:Hloop.
  destruct (toggle_loop_keeps true w w1 r1 k Hloop) as (_ & _ & Hv).
  pose proof Hloop as Hlog.
  apply (for_each_toggle true _ (NoDup_keys (blk w))) in Hlog as (Hlog & _).
  destruct r1 as [[]|e].
  - destruct flags as [f|].
    + unfold revert_state_vars. destruct (decide _); cbn; discriminate.
    + discriminate.
  - intros [= <- _]. done.
Qed.

Lemma unfix_state_missing_constraint_keeps_variables_witness :
  unfix_state (produced_flags false unbuilt_world) NOTSET
    (after_fixing sample_args false unbuilt_world)
  = (after_fixing sample_args false unbuilt_world, Exc missing_constraint)
  /\ log (after_fixing sample_args false unbuilt_world)
     = log (after_fixing sample_args false unbuilt_world).
Proof.
  assert (unfix_state (produced_flags false unbuilt_world) NOTSET
            (after_fixing sample_args false unbuilt_world)
          = (after_fixing sample_args false unbuilt_world, Exc missing_constraint))
    as Hrun by (vm_compute; reflexivity).
  split; [exact Hrun|].
  apply (unfix_state_missing_constraint_keeps_variables _ _ _ _ 0 Hrun).
Defined.

Lemma toggle_toggle_active b :
  (defined_state b = false -> mole_fraction_constraint b = Some (mkConstraint true)) ->
  toggle true (toggle false b) = b.
Proof.
  intros Hact. destruct b as [d f m p t dm ig c]. cbn in Hact.
  unfold toggle. cbn. destruct d; [done|]. rewrite Hact by done. reflexivity.
Qed.

(** X7: with [state_vars_fixed] True, [prepare_state] produces no flags,
    and release without flags after it gives the block back exactly,
    provided the sum of mole fractions was active wherever the state is
    not externally defined. *)
Theorem prepare_fixed_then_release g state_args outlvl w w1 fl :
  prepare_state g state_args true w = (w1, Val fl) ->
  (forall k b, blk w !! k = Some b -> defined_state b = false ->
               mole_fraction_constraint b = Some (mkConstraint true)) ->
  fl = None
  /\ exists w3, unfix_state fl outlvl w1 = (w3, Val tt) /\ blk w3 = blk w.
Proof.
  intros Hprep Hact.
  destruct (release_after_prepare_run g state_args true outlvl w w1 fl w1 Hprep
              (solve_step_between_refl w1)) as [Hun _].
  apply prepare_state_val in Hprep as (-> & -> & _).
  split; [done|]. eexists. split; [exact Hun|].
  cbn. apply map_eq. intros k. rewrite map_lookup_imap, lookup_fmap.
  destruct (blk w !! k) as [b|] eqn:Hb; [|done]. cbn. f_equal.
  unfold released, prepared. apply toggle_toggle_active. by apply (Hact k).
Qed.

Lemma prepare_fixed_then_release_witness :
  prepare_state notebook_globals no_state_args true fixed_internal_world
  = ((prepare_state notebook_globals no_state_args true fixed_internal_world).1, Val None)
  /\ exists w3,
       unfix_state None NOTSET
         (prepare_state notebook_globals no_state_args true fixed_internal_world).1
       = (w3, Val tt)
       /\ blk w3 = blk fixed_internal_world.
Proof.
  assert (prepare_state notebook_globals no_state_args true fixed_internal_world
          = ((prepare_state notebook_globals no_state_args true fixed_internal_world).1,
             Val None)) as Hprep by (vm_compute; reflexivity).
  split; [exact Hprep|].
  apply (prepare_fixed_then_release notebook_globals no_state_args NOTSET
           fixed_internal_world _ None Hprep).
  intros k b Hb _. cbn in Hb. apply lookup_singleton_Some in Hb as [_ <-]. reflexivity.
Defined.

Lemma revert_one_idem f v : revert_one f (revert_one f v) = revert_one f v.
Proof. by destruct f. Qed.

Lemma released_idem flags k b :
  released flags k (released flags k b) = released flags k b.
Proof.
  destruct b as [d fm [m1 m2 m3 m4 m5] p t dm ig c].
  unfold released. destruct flags as [f|]; [destruct (f !! k) as [sf|]|];
    unfold toggle, revert_sub_block, set_mole_fraction_constraint, map2c;
    cbn -[revert_one]; destruct d; cbn -[revert_one];
    try (destruct c; cbn -[revert_one]); by rewrite ?revert_one_idem.
Qed.

Lemma released_owns flags k b : owns_constraint b -> owns_constraint (released flags k b).
Proof.
  intros Hown.
  assert (defined_state (released flags k b) = defined_state b
          /\ mole_fraction_constraint (released flags k b)
             = mole_fraction_constraint (toggle true b)) as [Hd Hc].
  { unfold released. destruct flags as [f|]; [|by destruct (toggle_fields true b)].
    destruct (f !! k); by destruct (toggle_fields true b). }
  destruct (toggle_fields true b) as (_ & _ & _ & Ht).
  unfold owns_constraint in *. rewrite Hd, Hc, Ht. intros Hdef. rewrite Hdef.
  destruct (Hown Hdef) as [c ->]. cbn. eauto.
Qed.

(** X8: release is idempotent on the block: when it returns, running it
    again with the same flags returns as well and leaves every sub-block
    as the first run left it. *)
Theorem unfix_state_idempotent flags outlvl outlvl' w w1 :
  unfix_state flags outlvl w = (w1, Val tt) ->
  exists w2, unfix_state flags outlvl' w1 = (w2, Val tt) /\ blk w2 = blk w1.
Proof.
  intros Hrun.
  destruct (unfix_state_val_inv _ _ _ _ Hrun) as [Hown Hcov].
  rewrite (unfix_state_run flags outlvl w Hown Hcov) in Hrun. injection Hrun as <-.
  set (w1 := mkWorld _ _ _).
  assert (map_Forall (fun _ b => owns_constraint b) (blk w1)) as Hown1.
  { intros k b Hb. cbn in Hb. rewrite map_lookup_imap in Hb.
    destruct (blk w !! k) as [b0|] eqn:Hb0; [|done]. cbn in Hb. injection Hb as <-.
    apply released_owns. by apply (Hown k). }
  assert (flags_cover flags w1) as Hcov1.
  { intros f Hf k b Hb. cbn in Hb. rewrite map_lookup_imap in Hb.
    destruct (blk w !! k) as [b0|] eqn:Hb0; [|done].
    by apply (Hcov f Hf k b0). }
  rewrite (unfix_state_run flags outlvl' w1 Hown1 Hcov1).
  eexists. split; [done|]. cbn.
  apply map_eq. intros k. rewrite !map_lookup_imap.
  destruct (blk w !! k) as [b0|]; [|done]. cbn. by rewrite released_idem.
Qed.

Lemma unfix_state_idempotent_witness :
  unfix_state None NOTSET deactivated_world
  = ((unfix_state None NOTSET deactivated_world).1, Val tt)
  /\ exists w2, unfix_state None INFO (unfix_state None NOTSET deactivated_world).1
                = (w2, Val tt)
                /\ blk w2 = blk (unfix_state None NOTSET deactivated_world).1.
Proof.
  assert (unfix_state None NOTSET deactivated_world
          = ((unfix_state None NOTSET deactivated_world).1, Val tt)) as Hrun
    by (vm_compute; reflexivity).
  split; [exact Hrun|].
  apply (unfix_state_idempotent None NOTSET INFO deactivated_world _ Hrun).
Defined.

(** X10: in a namespace that binds [number_unifxed_variables],
    [initialize_state] enters the solver once when the count over the
    sub-blocks is positive and not at all otherwise, and an exception of
    the solver never surfaces: the only exception is the AttributeError of
    the log statement, and nothing is logged. *)
Theorem initialize_state_with_count_bound g f solver outlvl w :
  g !! "number_unifxed_variables" = Some f ->
  let run := initialize_state g solver outlvl w in
  run.2 = Exc (AttributeError "str" "formate")
  /\ log run.1 = log w
  /\ solver_calls run.1
     = (if decide (0 < counted f w 0 (map_to_list (blk w)).*1)%Z
        then S (solver_calls w) else solver_calls w).
Proof.
  intros Hg. cbv zeta. rewrite (initialize_state_count_bound g f solver outlvl w Hg).
  destruct (decide _); done.
Qed.

Lemma initialize_state_with_count_bound_witness :
  patched_globals !! "number_unifxed_variables" = Some number_unfixed_variables
  /\ (initialize_state patched_globals failing_solver NOTSET single_world).2
     = Exc (AttributeError "str" "formate")
  /\ solver_calls (initialize_state patched_globals failing_solver NOTSET single_world).1
     = 1.
Proof.
  assert (patched_globals !! "number_unifxed_variables" = Some number_unfixed_variables)
    as Hg by reflexivity.
  split; [exact Hg|].
  destruct (initialize_state_with_count_bound patched_globals number_unfixed_variables
              failing_solver NOTSET single_world Hg) as (H2 & _ & Hs).
  split; [exact H2|]. rewrite Hs. vm_compute. reflexivity.
Defined.

(** X11: on an indexed block without sub-blocks, [prepare_state] returns
    at once with the world unchanged, whatever the namespace binds, and
    release only logs. *)
Theorem empty_block_passes g state_args state_vars_fixed flags outlvl w :
  blk w = ∅ ->
  prepare_state g state_args state_vars_fixed w
  = (w, Val (if state_vars_fixed then None else Some ∅))
  /\ unfix_state flags outlvl w
     = (mkWorld ∅ (log w ++ [mkLog outlvl INFO_HIGH "State Released."]) (solver_calls w),
        Val tt).
Proof.
  intros He. split.
  - rewrite prepare_state_unfold. cbv zeta.
    assert (after_fixing state_args state_vars_fixed w = w) as ->.
    { apply world_eq; [|apply after_fixing_log..].
      rewrite after_fixing_blk, He. apply fmap_empty. }
    rewrite He, map_to_list_empty. cbn.
    unfold produced_flags. rewrite He. destruct state_vars_fixed; [done|].
    by rewrite fmap_empty.
  - rewrite unfix_state_run.
    + by rewrite He, map_imap_empty.
    + rewrite He. apply map_Forall_empty.
    + intros f _. rewrite He. apply map_Forall_empty.
Qed.

Lemma empty_block_passes_witness :
  blk (mkWorld ∅ [] 0) = ∅
  /\ prepare_state ∅ sample_args false (mkWorld ∅ [] 0) = (mkWorld ∅ [] 0, Val (Some ∅)).
Proof.
  split; [reflexivity|].
  apply (empty_block_passes ∅ sample_args false None NOTSET (mkWorld ∅ [] 0) eq_refl).
Defined.

(** * Further properties of the property expressions *)

Section MoreEnthalpy.

Local Open Scope Q_scope.

(** X12: the scaled constraint [1e3 == sum(1e3 * x_j)] is satisfied
    exactly when the mole fractions sum to one. *)
Theorem mole_fraction_constraint_sums_to_one b :
  mole_fraction_constraint_expr b
  <-> py_sum ((fun j => value (getc (mole_frac_comp b) j)) <$> component_list) == 1.
Proof.
  unfold mole_fraction_constraint_expr, component_list. cbn [fmap list_fmap].
  rewrite !py_sum_five.
  set (a := value (getc (mole_frac_comp b) benzene)).
  set (c := value (getc (mole_frac_comp b) toluene)).
  set (d := value (getc (mole_frac_comp b) methane)).
  set (e := value (getc (mole_frac_comp b) hydrogen)).
  set (f := value (getc (mole_frac_comp b) diphenyl)).
  split; intros H.
  - apply (Qmult_inj_l _ _ 1000); [discriminate|].
    assert (1000 * (a + c + d + e + f)
            == 1000 * a + 1000 * c + 1000 * d + 1000 * e + 1000 * f) as -> by ring.
    rewrite <- H. ring.
  - assert (1000 * a + 1000 * c + 1000 * d + 1000 * e + 1000 * f
            == 1000 * (a + c + d + e + f)) as -> by ring.
    rewrite H. ring.
Qed.

(** X13: ideal mixing: at one temperature, the molar enthalpy of a
    mixture whose mole fractions are the blend [lam * x1 + (1 - lam) * x2]
    is the same blend of the two molar enthalpies. *)
Theorem enth_mol_ideal_mixing params lam b1 b2 b :
  value (temperature b1) == value (temperature b) ->
  value (temperature b2) == value (temperature b) ->
  (forall j, value (getc (mole_frac_comp b) j)
             == lam * value (getc (mole_frac_comp b1) j)
                + (1 - lam) * value (getc (mole_frac_comp b2) j)) ->
  enth_rule params b == lam * enth_rule params b1 + (1 - lam) * enth_rule params b2.
Proof.
  intros HT1 HT2 Hx. unfold enth_rule, enth_term, enth_poly, component_list.
  cbn [fmap list_fmap]. cbv zeta.
  rewrite !py_sum_five, HT1, HT2.
  rewrite (Hx benzene), (Hx toluene), (Hx methane), (Hx hydrogen), (Hx diphenyl).
  ring.
Qed.

Lemma enth_mol_ideal_mixing_witness :
  value (temperature fixed_inlet) == value (temperature blend_state)
  /\ value (temperature equilibrium_state) == value (temperature blend_state)
  /\ enth_rule default_params blend_state
     == (1 # 2) * enth_rule default_params fixed_inlet
        + (1 - (1 # 2)) * enth_rule default_params equilibrium_state.
Proof.
  assert (value (temperature fixed_inlet) == value (temperature blend_state)) as HT1
    by reflexivity.
  assert (value (temperature equilibrium_state) == value (temperature blend_state))
    as HT2 by reflexivity.
  split; [exact HT1|]. split; [exact HT2|].
  apply (enth_mol_ideal_mixing default_params (1 # 2) fixed_inlet equilibrium_state
           blend_state HT1 HT2).
  intros j. destruct j; reflexivity.
Defined.

(** X14: for a pure component [j] (mole fraction one, all others zero)
    the mixture enthalpy is the component factor of [j]: the polynomial in
    [T] plus the reference heat of formation. *)
Theorem enth_mol_pure_component params b j :
  (forall i, value (getc (mole_frac_comp b) i) == if decide (i = j) then 1 else 0) ->
  enth_rule params b == enth_term params (value (temperature b)) j.
Proof.
  intros Hx. unfold enth_rule, component_list. cbn [fmap list_fmap].
  rewrite py_sum_five.
  rewrite (Hx benzene), (Hx toluene), (Hx methane), (Hx hydrogen), (Hx diphenyl).
  destruct j; repeat case_decide; try congruence; ring.
Qed.

Lemma enth_mol_pure_component_witness :
  (forall i, value (getc (mole_frac_comp pure_methane) i)
             == if decide (i = methane) then 1 else 0)
  /\ enth_rule default_params pure_methane == enth_term default_params 400 methane.
Proof.
  assert (forall i, value (getc (mole_frac_comp pure_methane) i)
                    == if decide (i = methane) then 1 else 0) as Hx
    by (intros i; destruct i; repeat case_decide; try congruence; reflexivity).
  split; [exact Hx|].
  apply (enth_mol_pure_component default_params pure_methane methane Hx).
Defined.

End MoreEnthalpy.

Section MoreReaction.

Local Open Scope Q_scope.
Import Reaction.

Lemma rate_rule_holds rb sb :
  holds rb sb rate_rule
  <-> value (reaction_rate rb)
      == value (k_rxn rb) * value (getc (mole_frac_comp sb) toluene)
         * value (getc (mole_frac_comp sb) hydrogen) * value (pressure sb) ^ 2.
Proof.
  unfold holds. cbn. split.
  - intros (x & y & [= <-] & [= <-] & H). exact H.
  - intros H. eauto.
Qed.

Lemma Qsquare_pos x : 0 <= x ^ 2.
Proof.
  assert (x ^ 2 == x * x) as -> by ring.
  destruct x as [n d]. unfold Qle, Qmult. cbn. nia.
Qed.

Lemma Qsquare_zero x : x ^ 2 == 0 <-> x == 0.
Proof.
  assert (x ^ 2 == x * x) as -> by ring. split.
  - intros H. apply Qmult_integral in H. tauto.
  - intros ->. ring.
Qed.

(** X15: a reaction rate that satisfies [rate_rule] is not negative when
    the rate constant and the two mole fractions are not, and it is zero
    exactly when the rate constant, the toluene or hydrogen fraction, or
    the pressure is zero. *)
Theorem reaction_rate_sign rb sb :
  holds rb sb rate_rule ->
  0 <= value (k_rxn rb) ->
  0 <= value (getc (mole_frac_comp sb) toluene) ->
  0 <= value (getc (mole_frac_comp sb) hydrogen) ->
  0 <= value (reaction_rate rb)
  /\ (value (reaction_rate rb) == 0
      <-> value (k_rxn rb) == 0
          \/ value (getc (mole_frac_comp sb) toluene) == 0
          \/ value (getc (mole_frac_comp sb) hydrogen) == 0
          \/ value (pressure sb) == 0).
Proof.
  intros Hh Hk Ht Hy. apply rate_rule_holds in Hh.
  set (r := value (reaction_rate rb)) in *. set (k := value (k_rxn rb)) in *.
  set (t := value (getc (mole_frac_comp sb) toluene)) in *.
  set (y := value (getc (mole_frac_comp sb) hydrogen)) in *.
  set (P := value (pressure sb)) in *.
  split.
  - rewrite Hh.
    apply Qmult_le_0_compat; [|apply Qsquare_pos].
    apply Qmult_le_0_compat; [|done]. by apply Qmult_le_0_compat.
  - rewrite Hh. split.
    + intros H. apply Qmult_integral in H as [H|H];
        [|apply (proj1 (Qsquare_zero _)) in H; by do 3 right].
      apply Qmult_integral in H as [H|H]; [|by right; right; left].
      apply Qmult_integral in H as [H|H]; [by left|by right; left].
    + intros [H|[H|[H|H]]]; rewrite H; ring.
Qed.

Lemma reaction_rate_sign_witness :
  holds rating_reaction_block equilibrium_state rate_rule
  /\ 0 <= value (k_rxn rating_reaction_block)
  /\ 0 <= value (reaction_rate rating_reaction_block).
Proof.
  assert (holds rating_reaction_block equilibrium_state rate_rule) as Hh
    by (apply rate_rule_holds; reflexivity).
  assert (0 <= value (k_rxn rating_reaction_block)) as Hk by discriminate.
  split; [exact Hh|]. split; [exact Hk|].
  apply (reaction_rate_sign rating_reaction_block equilibrium_state Hh Hk);
    discriminate.
Defined.

(** X16: the rate law is second order in pressure: between two states
    with the same rate constant and the same toluene and hydrogen
    fractions, multiplying the pressure by [c] multiplies the rate that
    satisfies [rate_rule] by [c^2]. *)
Theorem reaction_rate_second_order rb sb rb' sb' c :
  holds rb sb rate_rule ->
  holds rb' sb' rate_rule ->
  value (k_rxn rb') == value (k_rxn rb) ->
  value (getc (mole_frac_comp sb') toluene) == value (getc (mole_frac_comp sb) toluene) ->
  value (getc (mole_frac_comp sb') hydrogen) == value (getc (mole_frac_comp sb) hydrogen) ->
  value (pressure sb') == c * value (pressure sb) ->
  value (reaction_rate rb') == c ^ 2 * value (reaction_rate rb).
Proof.
  intros Hh Hh' Hk Ht Hy HP.
  apply rate_rule_holds in Hh. apply rate_rule_holds in Hh'.
  rewrite Hh', Hh, Hk, Ht, Hy, HP. ring.
Qed.

Lemma reaction_rate_second_order_witness :
  holds half_rate_reaction_block half_pressure_state rate_rule
  /\ holds rating_reaction_block equilibrium_state rate_rule
  /\ value (pressure equilibrium_state) == 2 * value (pressure half_pressure_state)
  /\ value (reaction_rate rating_reaction_block)
     == 2 ^ 2 * value (reaction_rate half_rate_reaction_block).
Proof.
  assert (holds half_rate_reaction_block half_pressure_state rate_rule) as Hh
    by (apply rate_rule_holds; reflexivity).
  assert (holds rating_reaction_block equilibrium_state rate_rule) as Hh'
    by (apply rate_rule_holds; reflexivity).
  assert (value (pressure equilibrium_state) == 2 * value (pressure half_pressure_state))
    as HP by reflexivity.
  split; [exact Hh|]. split; [exact Hh'|]. split; [exact HP|].
  apply (reaction_rate_second_order half_rate_reaction_block half_pressure_state
           rating_reaction_block equilibrium_state 2 Hh Hh');
    [reflexivity|reflexivity|reflexivity|exact HP].
Defined.

(** X17: where benzene is absent and the pressure is not zero, the
    constraint of [define_equilibrium_expression] is still defined and is
    satisfied exactly when diphenyl or hydrogen is absent too, whereas the
    ratio it was rearranged from divides by zero and is satisfied by no
    value of [k_eq]. *)
Theorem equilibrium_without_benzene rb sb :
  value (getc (mole_frac_comp sb) benzene) == 0 ->
  ~ value (pressure sb) == 0 ->
  (holds rb sb define_equilibrium_expression
   <-> value (getc (mole_frac_comp sb) diphenyl) == 0
       \/ value (getc (mole_frac_comp sb) hydrogen) == 0)
  /\ ~ holds rb sb ratio_form.
Proof.
  intros Hb HP. split.
  - rewrite equilibrium_constraint_holds, Hb.
    set (d := value (getc (mole_frac_comp sb) diphenyl)).
    set (y := value (getc (mole_frac_comp sb) hydrogen)).
    set (P := value (pressure sb)) in *.
    assert (k_eq rb * 0 * P == 0) as -> by ring. split.
    + intros H. symmetry in H.
      apply Qmult_integral in H as [H|H];
        [|apply (proj1 (Qsquare_zero _)) in H; contradiction].
      apply Qmult_integral in H as [H|H]; [by left|by right].
    + intros [H|H]; rewrite H; ring.
  - unfold holds. cbn. intros (x & y & _ & Hy & _).
    destruct (Qeq_bool _ 0) eqn:Hz; [discriminate|].
    apply Qeq_bool_neq in Hz. apply Hz. rewrite Hb. ring.
Qed.

Lemma equilibrium_without_benzene_witness :
  value (getc (mole_frac_comp benzene_free_state) benzene) == 0
  /\ ~ value (pressure benzene_free_state) == 0
  /\ holds sample_reaction_block benzene_free_state define_equilibrium_expression.
Proof.
  assert (value (getc (mole_frac_comp benzene_free_state) benzene) == 0) as Hb
    by reflexivity.
  assert (~ value (pressure benzene_free_state) == 0) as HP by discriminate.
  split; [exact Hb|]. split; [exact HP|].
  apply (equilibrium_without_benzene sample_reaction_block benzene_free_state Hb HP).
  left. reflexivity.
Defined.

End MoreReaction.

(** * Further properties of the parameter blocks and of block construction *)

Section Stoichiometry.

Import ReactionParameters.

(** X18: each stoichiometry table has exactly one entry per reaction of
    its index set, phase and component, and every combination of the two
    reactions conserves the total amount: summed over the components,
    the generation is zero whatever the two extents. *)
Theorem stoichiometry_conserves_moles (xi_R1 xi_E1 : Q) :
  (forall key, is_Some (rate_reaction_stoichiometry !! key)
               <-> key ∈ expected_keys rate_reaction_idx)
  /\ (forall key, is_Some (equilibrium_reaction_stoichiometry !! key)
                  <-> key ∈ expected_keys equilibrium_reaction_idx)
  /\ (py_sum (generation xi_R1 xi_E1 <$> component_list) == 0)%Q.
Proof.
  split; [|split].
  - intros key. rewrite <- elem_of_dom.
    assert (dom rate_reaction_stoichiometry
            = list_to_set (expected_keys rate_reaction_idx)) as ->
      by (apply (bool_decide_unpack _); vm_compute; exact I).
    apply elem_of_list_to_set.
  - intros key. rewrite <- elem_of_dom.
    assert (dom equilibrium_reaction_stoichiometry
            = list_to_set (expected_keys equilibrium_reaction_idx)) as ->
      by (apply (bool_decide_unpack _); vm_compute; exact I).
    apply elem_of_list_to_set.
  - unfold component_list. cbn [fmap list_fmap]. rewrite py_sum_five.
    unfold generation.
    assert (forall j, rate_reaction_stoichiometry !! ("R1", "Vap", component_name j)
                      = Some match j with
                             | benzene => 1 | toluene => -1 | methane => 1
                             | hydrogen => -1 | diphenyl => 0
                             end%Z) as HR by (intros []; reflexivity).
    assert (forall j, equilibrium_reaction_stoichiometry !! ("E1", "Vap", component_name j)
                      = Some match j with
                             | benzene => -2 | toluene => 0 | methane => 0
                             | hydrogen => 1 | diphenyl => 1
                             end%Z) as HE by (intros []; reflexivity).
    rewrite !HR, !HE. cbv [default from_option id Datatypes.id inject_Z]. ring.
Qed.

End Stoichiometry.

Section Arrhenius.

Import Kinetics.
Local Open Scope R_scope.

Lemma arrhenius_exponent_negative Ea Rg T :
  0 < Ea -> 0 < Rg -> 0 < T -> (- Ea) / (Rg * T) < 0.
Proof.
  intros HE HR HT. unfold Rdiv.
  assert (0 < / (Rg * T)) by (apply Rinv_0_lt_compat, Rmult_lt_0_compat; lra).
  nra.
Qed.

(** X19: with a positive pre-exponential factor, activation energy, gas
    constant and temperature, the rate constant that satisfies
    [arrhenius_equation] is positive and below the pre-exponential
    factor. *)
Theorem arrhenius_between A Ea Rg T :
  0 < A -> 0 < Ea -> 0 < Rg -> 0 < T ->
  0 < arrhenius_rhs A Ea Rg T < A.
Proof.
  intros HA HE HR HT. unfold arrhenius_rhs.
  pose proof (exp_pos ((- Ea) / (Rg * T))) as Hpos.
  assert (exp ((- Ea) / (Rg * T)) < 1) as Hlt.
  { rewrite <- exp_0. apply exp_increasing. by apply arrhenius_exponent_negative. }
  split; nra.
Qed.

Lemma arrhenius_between_witness :
  0 < arrhenius_default
  /\ 0 < energy_activation_default
  /\ 0 < arrhenius_rhs arrhenius_default energy_activation_default
         (8314462618 / 1000000000) 500
       < arrhenius_default.
Proof.
  assert (0 < arrhenius_default) as HA by (unfold arrhenius_default; lra).
  assert (0 < energy_activation_default) as HE by (unfold energy_activation_default; lra).
  split; [exact HA|]. split; [exact HE|].
  apply (arrhenius_between arrhenius_default energy_activation_default
           (8314462618 / 1000000000) 500 HA HE); lra.
Defined.

(** X20: under the same conditions the rate constant that satisfies
    [arrhenius_equation] increases strictly with temperature. *)
Theorem arrhenius_increasing A Ea Rg T1 T2 :
  0 < A -> 0 < Ea -> 0 < Rg -> 0 < T1 -> T1 < T2 ->
  arrhenius_rhs A Ea Rg T1 < arrhenius_rhs A Ea Rg T2.
Proof.
  intros HA HE HR HT1 HT. unfold arrhenius_rhs.
  apply Rmult_lt_compat_l; [done|]. apply exp_increasing.
  unfold Rdiv.
  assert (/ (Rg * T2) < / (Rg * T1)) as Hinv.
  { apply Rinv_lt_contravar; [|nra].
    apply Rmult_lt_0_compat; apply Rmult_lt_0_compat; lra. }
  nra.
Qed.

Lemma arrhenius_increasing_witness :
  0 < arrhenius_default
  /\ 0 < energy_activation_default
  /\ arrhenius_rhs arrhenius_default energy_activation_default
       (8314462618 / 1000000000) 500
     < arrhenius_rhs arrhenius_default energy_activation_default
         (8314462618 / 1000000000) 600.
Proof.
  assert (0 < arrhenius_default) as HA by (unfold arrhenius_default; lra).
  assert (0 < energy_activation_default) as HE by (unfold energy_activation_default; lra).
  split; [exact HA|]. split; [exact HE|].
  apply (arrhenius_increasing arrhenius_default energy_activation_default
           (8314462618 / 1000000000) 500 600 HA HE); lra.
Defined.

End Arrhenius.

Section ParameterTables.

Import Parameters.

(** X23: each of the six parameter tables has an entry for every
    component and for nothing else, so that no lookup by a component of
    [component_list] misses; and [default_params] holds the entries of the
    tables. *)
Theorem parameter_tables_cover_components t name :
  t ∈ tables ->
  (is_Some (t !! name) <-> exists j, name = component_name j)
  /\ of_tables = Some default_params.
Proof.
  intros Ht. split; [|reflexivity].
  assert (dom t = list_to_set (component_name <$> component_list)) as Hdom.
  { unfold tables in Ht.
    repeat (apply elem_of_cons in Ht as [->|Ht];
            [apply (bool_decide_unpack _); vm_compute; exact I|]).
    by apply elem_of_nil in Ht. }
  rewrite <- elem_of_dom, Hdom, elem_of_list_to_set, list_elem_of_fmap.
  split.
  - intros (j & -> & _). eauto.
  - intros [j ->]. exists j. split; [done|]. destruct j; repeat constructor.
Qed.

Lemma parameter_tables_cover_components_witness :
  Parameters.mw_comp ∈ Parameters.tables
  /\ (is_Some (Parameters.mw_comp !! "diphenyl")
      <-> exists j, "diphenyl" = component_name j).
Proof.
  assert (Parameters.mw_comp ∈ Parameters.tables) as Ht by (left).
  split; [exact Ht|].
  apply (parameter_tables_cover_components Parameters.mw_comp "diphenyl" Ht).
Defined.

End ParameterTables.
